(** * whispertest2.py: real-time microphone transcription

    A shallow embedding of [SimpleRealtimeWhisper] and [main] from
    [src/whispertest2.py], and the properties of the capture callback, the
    accumulate-and-slice worker loop, the transcription step and the
    start/stop lifecycle.

    Python values are modelled as follows.
    - [bytes] objects are lists of [Byte.byte]; [len] is the Python length as
      an integer of [Z].
    - [str] objects are lists of Unicode code points ([N]); literals of the
      source are written as UTF-8 string literals and decoded by [utf8].
    - The attributes of the object that are never reassigned ([CHUNK],
      [FORMAT], [CHANNELS], [RATE]) are constants; the others are fields of
      the record [SimpleRealtimeWhisper].
    - Everything the program does to the outside (console lines, sleeps, calls
      into PyAudio and faster-whisper) is appended to a chronological trace
      of [event]s; what the outside answers is read from an [Env]. *)

From Stdlib Require Import List ZArith NArith Lia Bool String Ascii.
From Stdlib.Strings Require Import Byte.
Import ListNotations.
Local Open Scope Z_scope.

Set Implicit Arguments.

(** ** Python strings and bytes *)

Abbreviation bytes := (list byte).
Abbreviation pystr := (list N).

Definition len {A : Type} (l : list A) : Z := Z.of_nat (List.length l).

(** [b[:n]] and [b[n:]] for any integer [n]; a negative index counts from the
    end, as Python slices do. *)
Definition slice_index {A : Type} (n : Z) (l : list A) : nat :=
  Z.to_nat (if n <? 0 then Z.max 0 (len l + n) else n).

Definition slice_to {A : Type} (n : Z) (l : list A) : list A :=
  firstn (slice_index n l) l.

Definition slice_from {A : Type} (n : Z) (l : list A) : list A :=
  skipn (slice_index n l) l.

Fixpoint string_bytes (s : string) : list N :=
  match s with
  | EmptyString => []
  | String a r => N_of_ascii a :: string_bytes r
  end.

(** Decoder for the UTF-8 source literals (well-formed input only). *)
Fixpoint utf8_decode (bs : list N) : pystr :=
  match bs with
  | [] => []
  | b0 :: r =>
      if (b0 <? 0x80)%N then b0 :: utf8_decode r
      else if (b0 <? 0xE0)%N then
        match r with
        | b1 :: r1 => ((b0 mod 0x20) * 0x40 + b1 mod 0x40)%N :: utf8_decode r1
        | _ => []
        end
      else if (b0 <? 0xF0)%N then
        match r with
        | b1 :: b2 :: r2 =>
            ((b0 mod 0x10) * 0x1000 + (b1 mod 0x40) * 0x40 + b2 mod 0x40)%N
              :: utf8_decode r2
        | _ => []
        end
      else
        match r with
        | b1 :: b2 :: b3 :: r3 =>
            ((b0 mod 0x08) * 0x40000 + (b1 mod 0x40) * 0x1000
             + (b2 mod 0x40) * 0x40 + b3 mod 0x40)%N :: utf8_decode r3
        | _ => []
        end
  end.

Definition utf8 (s : string) : pystr := utf8_decode (string_bytes s).

(** [str.isspace] on one code point: the characters [str.strip()] removes. *)
Definition isspace (c : N) : bool :=
  ((0x09 <=? c) && (c <=? 0x0D) || (0x1C <=? c) && (c <=? 0x20)
   || (c =? 0x85) || (c =? 0xA0) || (c =? 0x1680)
   || (0x2000 <=? c) && (c <=? 0x200A)
   || (c =? 0x2028) || (c =? 0x2029) || (c =? 0x202F)
   || (c =? 0x205F) || (c =? 0x3000))%N.

Fixpoint lstrip (s : pystr) : pystr :=
  match s with
  | [] => []
  | c :: r => if isspace c then lstrip r else s
  end.

Definition rstrip (s : pystr) : pystr := rev (lstrip (rev s)).

Definition strip (s : pystr) : pystr := rstrip (lstrip s).

(** Truthiness of a [str]: non-empty. *)
Definition nonempty (s : pystr) : bool :=
  match s with [] => false | _ :: _ => true end.

Definition SPACE : N := 0x20%N.

(** [" ".join(l)] *)
Fixpoint join_space (l : list pystr) : pystr :=
  match l with
  | [] => []
  | [a] => a
  | a :: r => a ++ SPACE :: join_space r
  end.

(** ** Configuration set by [__init__] and never reassigned *)

Definition CHUNK : Z := 1024.
Definition paInt16 : Z := 8.
Definition FORMAT : Z := paInt16.
Definition CHANNELS : Z := 1.
Definition RATE : Z := 16000.
Definition paContinue : Z := 0.

(** Bytes of one sample of the [paInt16] format. *)
Definition SAMPLE_WIDTH : Z := 2.

(** ** Exceptions, external calls, events *)

(** [Empty] is [queue.Empty]; [Error msg] is any other instance of
    [Exception], with [msg] what [str(e)] gives; [KeyboardInterrupt] is not
    an [Exception]. *)
Inductive exn : Type :=
| KeyboardInterrupt
| Empty
| Error (msg : pystr).

Definition is_Exception (e : exn) : bool :=
  match e with KeyboardInterrupt => false | _ => true end.

Definition str_exn (e : exn) : pystr :=
  match e with Error msg => msg | _ => [] end.

(** Calls into the audio binding and the model loader; each may raise. *)
Inductive extcall : Type :=
| WhisperModel_tiny
| PyAudio_new
| p_open (format channels rate frames_per_buffer : Z)
| stream_start_stream
| stream_stop_stream
| stream_close
| p_terminate.

Inductive event : Type :=
| Print (line : pystr)
| Sleep (milliseconds : N)
| Ext (c : extcall)
| Transcribe (audio_float : list Z)
| Pop (frame : bytes)
| Chunk (process_data : bytes)
| ThreadStart.

Inductive engine_result : Type :=
| Raises (msg : pystr)
| Segments (texts : list pystr).

(** The outside world.  Each oracle sees the trace so far.
    - [engine]: what [model.transcribe] and the iteration over its segments
      give for a waveform: the segment texts, or an [Exception].
    - [clock]: seconds since local midnight when [time.strftime] is called.
    - [binding]: [Some msg] when the external call raises an [Exception].
    - [sigint]: the number of completed sleeps of the wait loop of [main]
      after which Ctrl-C arrives, if it ever does. *)
Record Env : Type := mkEnv {
  engine : list event -> list Z -> engine_result;
  clock : list event -> N;
  binding : list event -> extcall -> option pystr;
  sigint : option nat
}.

(** ** Program state *)

(** [has_model], [has_p], [has_stream] say whether the attribute of that
    name is bound ([hasattr]); [audio_buffer] is the [queue.Queue], oldest
    frame first. *)
Record SimpleRealtimeWhisper : Type := mkSelf {
  audio_buffer : list bytes;
  is_recording : bool;
  has_model : bool;
  has_p : bool;
  has_stream : bool
}.

(** [audio_chunk] is the local variable of [process_audio_thread]; [whisper]
    says whether the local of that name is bound in [main]; [out] is the
    trace, oldest event first. *)
Record world : Type := mkWorld {
  self : SimpleRealtimeWhisper;
  audio_chunk : bytes;
  whisper : bool;
  out : list event
}.

Definition set_audio_buffer (q : list bytes) (w : world) : world :=
  let s := self w in
  mkWorld (mkSelf q (is_recording s) (has_model s) (has_p s) (has_stream s))
          (audio_chunk w) (whisper w) (out w).

Definition set_is_recording (b : bool) (w : world) : world :=
  let s := self w in
  mkWorld (mkSelf (audio_buffer s) b (has_model s) (has_p s) (has_stream s))
          (audio_chunk w) (whisper w) (out w).

Definition set_has_model (w : world) : world :=
  let s := self w in
  mkWorld (mkSelf (audio_buffer s) (is_recording s) true (has_p s) (has_stream s))
          (audio_chunk w) (whisper w) (out w).

Definition set_has_p (w : world) : world :=
  let s := self w in
  mkWorld (mkSelf (audio_buffer s) (is_recording s) (has_model s) true (has_stream s))
          (audio_chunk w) (whisper w) (out w).

Definition set_has_stream (w : world) : world :=
  let s := self w in
  mkWorld (mkSelf (audio_buffer s) (is_recording s) (has_model s) (has_p s) true)
          (audio_chunk w) (whisper w) (out w).

Definition set_audio_chunk (b : bytes) (w : world) : world :=
  mkWorld (self w) b (whisper w) (out w).

Definition set_whisper (w : world) : world :=
  mkWorld (self w) (audio_chunk w) true (out w).

Definition log (e : event) (w : world) : world :=
  mkWorld (self w) (audio_chunk w) (whisper w) (out w ++ [e]).

(** ** A state-and-exception monad: the state survives a raise *)

Definition M (A : Type) : Type := world -> (exn + A) * world.

Definition ret {A : Type} (a : A) : M A := fun w => (inr a, w).

Definition bind {A B : Type} (m : M A) (f : A -> M B) : M B :=
  fun w => match m w with
           | (inl e, w') => (inl e, w')
           | (inr a, w') => f a w'
           end.

Definition raise {A : Type} (e : exn) : M A := fun w => (inl e, w).

Definition update (f : world -> world) : M unit := fun w => (inr tt, f w).

Definition read {A : Type} (f : world -> A) : M A := fun w => (inr (f w), w).

(** [try: body  except Exception as e: handler e] *)
Definition try_except {A : Type} (body : M A) (handler : exn -> M A) : M A :=
  fun w => match body w with
           | (inl e, w') => if is_Exception e then handler e w' else (inl e, w')
           | r => r
           end.

Declare Scope py_scope.
Delimit Scope py_scope with py.
Notation "x <- m ;; k" := (bind m (fun x => k))
  (at level 61, m at next level, right associativity) : py_scope.
Notation "m ;; k" := (bind m (fun _ => k))
  (at level 61, right associativity) : py_scope.
Local Open Scope py_scope.

Definition print (line : pystr) : M unit := update (log (Print line)).

Definition time_sleep (milliseconds : N) : M unit :=
  update (log (Sleep milliseconds)).

(** An external call: recorded, then it returns or raises as the
    environment says. *)
Definition extern (env : Env) (c : extcall) : M unit :=
  fun w => match binding env (out w) c with
           | Some msg => (inl (Error msg), log (Ext c) w)
           | None => (inr tt, log (Ext c) w)
           end.

(** ** Literals of the source *)

Definition MSG_INIT : pystr := utf8 "🎤 실시간 음성인식 초기화 중...".
Definition MSG_LOADING : pystr :=
  utf8 "Whisper 모델 로딩 중... (처음 실행시 다운로드 시간이 걸릴 수 있습니다)".
Definition MSG_LOADED : pystr := utf8 "✅ 모델 로딩 완료!".
Definition MSG_AUDIO_ERROR : pystr := utf8 "❌ 오디오 처리 오류: ".
Definition MSG_RULE : pystr := 0x0A%N :: repeat 0x3D%N 50.
Definition MSG_STARTED : pystr := utf8 "🎤 실시간 음성인식 시작!".
Definition MSG_SPEAK : pystr := utf8 "💬 마이크에 대고 말해보세요".
Definition MSG_CTRL_C : pystr := utf8 "⏹️  종료하려면 Ctrl+C를 누르세요".
Definition MSG_CLOCK : pystr := utf8 "🕐 [".
Definition MSG_LOOP_ERROR : pystr := utf8 "❌ 처리 오류: ".
Definition MSG_STOPPING : pystr := 0x0A%N :: utf8 "🛑 녹음을 중지합니다...".
Definition MSG_STOPPED : pystr := utf8 "✅ 녹음이 중지되었습니다.".
Definition MSG_INTERRUPTED : pystr :=
  0x0A%N :: 0x0A%N :: utf8 "👋 사용자에 의해 중단되었습니다.".
Definition MSG_ERROR : pystr := utf8 "❌ 오류 발생: ".
Definition MSG_FROMBUFFER : pystr :=
  utf8 "buffer size must be a multiple of element size".

(** ** [SimpleRealtimeWhisper.__init__] *)

Definition init (env : Env) : M unit :=
  print MSG_INIT ;;
  update (set_audio_buffer []) ;;
  update (set_is_recording false) ;;
  print MSG_LOADING ;;
  extern env WhisperModel_tiny ;;
  update set_has_model ;;
  print MSG_LOADED.

(** ** [audio_callback]

    [queue.Queue()] has no size limit, so [put] neither blocks nor raises. *)

Definition audio_buffer_put (in_data : bytes) : M unit :=
  update (fun w => set_audio_buffer (audio_buffer (self w) ++ [in_data]) w).

Definition audio_callback (in_data : bytes) : M (bytes * Z) :=
  recording <- read (fun w => is_recording (self w)) ;;
  (if recording then audio_buffer_put in_data else ret tt) ;;
  ret (in_data, paContinue).

(** ** [process_audio] *)

(** One little-endian two's complement 16-bit sample. *)
Definition int16_of (lo hi : byte) : Z :=
  let u := Z.of_N (Byte.to_N lo) + 256 * Z.of_N (Byte.to_N hi) in
  if u <? 32768 then u else u - 65536.

Fixpoint int16_samples (b : bytes) : list Z :=
  match b with
  | lo :: hi :: r => int16_of lo hi :: int16_samples r
  | _ => []
  end.

(** [np.frombuffer(audio_data, dtype=np.int16)]: raises [ValueError] unless
    the length is a multiple of the sample width.  The waveform
    [audio_np.astype(np.float32) / 32768.0] is kept as its list of
    numerators: every 16-bit integer and its quotient by [2^15] are exact in
    [float32], so the list determines the waveform and has its length. *)
Definition frombuffer_int16 (audio_data : bytes) : M (list Z) :=
  if Z.even (len audio_data) then ret (int16_samples audio_data)
  else raise (Error MSG_FROMBUFFER).

Definition model_transcribe (env : Env) (audio_float : list Z)
  : M (list pystr) :=
  fun w => match engine env (out w) audio_float with
           | Raises msg => (inl (Error msg), log (Transcribe audio_float) w)
           | Segments texts => (inr texts, log (Transcribe audio_float) w)
           end.

(** The loop over [segments] that builds [text]. *)
Definition collect (segments : list pystr) : pystr :=
  fold_left
    (fun text segment =>
       if nonempty (strip segment) then text ++ strip segment ++ [SPACE]
       else text)
    segments [].

(** [RATE * 1.0] is the float [16000.0]; comparing the integer length with it
    is the comparison of integers. *)
Definition process_audio (env : Env) (audio_data : bytes) : M (option pystr) :=
  try_except
    (audio_float <- frombuffer_int16 audio_data ;;
     if len audio_float <? RATE * 1 then ret None
     else
       segments <- model_transcribe env audio_float ;;
       ret (Some (strip (collect segments))))
    (fun e => print (MSG_AUDIO_ERROR ++ str_exn e) ;; ret None).

(** ** [start_recording] and the worker [process_audio_thread] *)

(** [chunk_duration = 3.0] and [int(self.RATE * chunk_duration)]: the product
    of the floats is the integer 48000 exactly. *)
Definition chunk_duration : Z := 3.
Definition chunk_size : Z := RATE * chunk_duration.

Definition audio_buffer_empty : M bool :=
  read (fun w => match audio_buffer (self w) with [] => true | _ => false end).

Definition audio_buffer_get_nowait : M bytes :=
  fun w => match audio_buffer (self w) with
           | [] => (inl Empty, w)
           | frame :: q => (inr frame, log (Pop frame) (set_audio_buffer q w))
           end.

Definition two_digits (n : N) : pystr :=
  [(0x30 + (n / 10) mod 10)%N; (0x30 + n mod 10)%N].

(** [time.strftime("%H:%M:%S")] at [t] seconds after local midnight. *)
Definition strftime_HMS (t : N) : pystr :=
  (two_digits ((t / 3600) mod 24) ++ 0x3A :: two_digits ((t / 60) mod 60)
   ++ 0x3A :: two_digits (t mod 60))%N.

Definition time_strftime (env : Env) : M pystr :=
  read (fun w => strftime_HMS (clock env (out w))).

(** The line [f"🕐 [{timestamp}] {text}"]. *)
Definition transcript_line (timestamp text : pystr) : pystr :=
  MSG_CLOCK ++ timestamp ++ utf8 "] " ++ text.

(** Lines 97-99: the poll of the queue. *)
Definition poll : M unit :=
  is_empty <- audio_buffer_empty ;;
  if negb is_empty then
    frame <- audio_buffer_get_nowait ;;
    update (fun w => set_audio_chunk (audio_chunk w ++ frame) w)
  else ret tt.

(** Lines 101-110: the slice and its transcription.  The event
    [Chunk process_data] records the slice taken. *)
Definition slice_and_process (env : Env) (chunk_size : Z) : M unit :=
  buffered <- read audio_chunk ;;
  if chunk_size <=? len buffered then
    let process_data := slice_to chunk_size buffered in
    update (set_audio_chunk (slice_from chunk_size buffered)) ;;
    update (log (Chunk process_data)) ;;
    text <- process_audio env process_data ;;
    match text with
    | Some t =>
        if nonempty t then
          timestamp <- time_strftime env ;;
          print (transcript_line timestamp t)
        else ret tt
    | None => ret tt
    end
  else ret tt.

(** The statements inside [try:] of one pass of the [while] loop. *)
Definition loop_try (env : Env) (chunk_size : Z) : M unit :=
  poll ;; slice_and_process env chunk_size.

(** One pass of the [while] loop: the [try] with its two handlers,
    [except queue.Empty] first. *)
Definition loop_body (env : Env) (chunk_size : Z) : M unit :=
  fun w => match loop_try env chunk_size w with
           | (inl Empty, w') => time_sleep 10 w'
           | (inl (Error msg), w') =>
               (print (MSG_LOOP_ERROR ++ msg) ;; time_sleep 100) w'
           | r => r
           end.

(** [while self.is_recording: ...] for at most [fuel] passes: [None] when the
    loop is still running after them, [Some (inr tt)] when it saw the flag
    cleared and returned, [Some (inl e)] when [e] ended the thread. *)
Fixpoint process_audio_thread (env : Env) (fuel : nat) (w : world)
  : option (exn + unit) * world :=
  match fuel with
  | O => (None, w)
  | S fuel' =>
      if is_recording (self w) then
        match loop_body env chunk_size w with
        | (inl e, w') => (Some (inl e), w')
        | (inr _, w') => process_audio_thread env fuel' w'
        end
      else (Some (inr tt), w)
  end.

Definition start_recording (env : Env) : M unit :=
  extern env PyAudio_new ;;
  update set_has_p ;;
  extern env (p_open FORMAT CHANNELS RATE CHUNK) ;;
  update set_has_stream ;;
  update (set_is_recording true) ;;
  extern env stream_start_stream ;;
  print MSG_RULE ;;
  print MSG_STARTED ;;
  print MSG_SPEAK ;;
  print MSG_CTRL_C ;;
  print (repeat 0x3D%N 50) ;;
  update (log ThreadStart).

(** ** [stop_recording] *)

Definition stop_recording (env : Env) : M unit :=
  print MSG_STOPPING ;;
  update (set_is_recording false) ;;
  has_stream_attr <- read (fun w => has_stream (self w)) ;;
  (if has_stream_attr then
     extern env stream_stop_stream ;;
     extern env stream_close
   else ret tt) ;;
  has_p_attr <- read (fun w => has_p (self w)) ;;
  (if has_p_attr then extern env p_terminate else ret tt) ;;
  print MSG_STOPPED.

(** ** [main] *)

(** [while True: time.sleep(0.1)] for at most [fuel] sleeps; Ctrl-C arrives
    in this loop, after [n] sleeps when [sigint env = Some n].  [None]: still
    waiting when the fuel is used up. *)
Fixpoint wait_loop (env : Env) (fuel slept : nat) (w : world)
  : option exn * world :=
  match fuel with
  | O => (None, w)
  | S fuel' =>
      match sigint env with
      | Some n =>
          if Nat.eqb n slept then (Some KeyboardInterrupt, w)
          else wait_loop env fuel' (S slept) (log (Sleep 100) w)
      | None => wait_loop env fuel' (S slept) (log (Sleep 100) w)
      end
  end.

(** The statements up to the wait loop. *)
Definition startup (env : Env) : M unit :=
  init env ;;
  update set_whisper ;;
  start_recording env.

(** The [except] clauses followed by [finally]. *)
Definition main_handlers (env : Env) (e : exn) : M unit :=
  (match e with
   | KeyboardInterrupt => print MSG_INTERRUPTED
   | _ => print (MSG_ERROR ++ str_exn e)
   end) ;;
  bound <- read whisper ;;
  if bound then stop_recording env else ret tt.

Definition main (env : Env) (fuel : nat) (w : world)
  : option (exn + unit) * world :=
  match startup env w with
  | (inl e, w1) =>
      let (r, w2) := main_handlers env e w1 in (Some r, w2)
  | (inr _, w1) =>
      match wait_loop env fuel 0 w1 with
      | (None, w2) => (None, w2)
      | (Some e, w2) =>
          let (r, w3) := main_handlers env e w2 in (Some r, w3)
      end
  end.


(** ** Interleavings of the capture callback, the worker and the controller

    A schedule takes one callback, one pass of the worker loop (the test of
    line 95 together with the body it guards) or one [stop_recording] at a
    time.  That is the granularity of what the worker keeps to itself: the
    queue has one producer and one consumer, and nothing in the body reads
    the flag.  It does not show a pass or a callback that is under way when
    the flag is cleared; [fine_step] below does. *)

Inductive action : Type :=
| Capture (in_data : bytes)
| Iterate
| Halt.

Definition step (env : Env) (a : action) (w : world) : world :=
  match a with
  | Capture in_data => snd (audio_callback in_data w)
  | Iterate =>
      if is_recording (self w) then snd (loop_body env chunk_size w) else w
  | Halt => snd (stop_recording env w)
  end.

Definition run (env : Env) (acts : list action) (w : world) : world :=
  fold_left (fun w a => step env a w) acts w.

(** Projections of a trace. *)
Definition pops (tr : list event) : list bytes :=
  flat_map (fun e => match e with Pop f => [f] | _ => [] end) tr.

Definition chunks (tr : list event) : list bytes :=
  flat_map (fun e => match e with Chunk c => [c] | _ => [] end) tr.

Definition transcribed (tr : list event) : list (list Z) :=
  flat_map (fun e => match e with Transcribe a => [a] | _ => [] end) tr.

Definition printed (tr : list event) : list pystr :=
  flat_map (fun e => match e with Print l => [l] | _ => [] end) tr.

Definition sleeps (tr : list event) : list N :=
  flat_map (fun e => match e with Sleep ms => [ms] | _ => [] end) tr.

Definition externs (tr : list event) : list extcall :=
  flat_map (fun e => match e with Ext c => [c] | _ => [] end) tr.

Definition captured (acts : list action) : list bytes :=
  flat_map (fun a => match a with Capture f => [f] | _ => [] end) acts.

(** The world before the program starts. *)
Definition world0 : world :=
  mkWorld (mkSelf [] false false false false) [] false [].

(** * Auxiliary definitions *)

(** The world [w] after the events [evs] and nothing else. *)
Definition emits (evs : list event) (w : world) : world :=
  mkWorld (self w) (audio_chunk w) (whisper w) (out w ++ evs).

(** The world after the queue poll of one pass. *)
Definition polled (w : world) : world :=
  match audio_buffer (self w) with
  | [] => w
  | frame :: q =>
      set_audio_chunk (audio_chunk w ++ frame) (log (Pop frame) (set_audio_buffer q w))
  end.

(** The world after the slice of one pass. *)
Definition sliced (chunk_size : Z) (w : world) : world :=
  log (Chunk (slice_to chunk_size (audio_chunk w)))
      (set_audio_chunk (slice_from chunk_size (audio_chunk w)) w).

(** Events of [process_audio] and of the transcript line: no poll, no
    slice, no sleep. *)
Definition quiet (evs : list event) : Prop :=
  pops evs = [] /\ chunks evs = [] /\ sleeps evs = [] /\ externs evs = [].

(** The chunks sliced so far, followed by the bytes still held, are the bytes
    polled so far; every chunk has [cs] bytes. *)
Definition lossless (cs : Z) (w : world) : Prop :=
  List.concat (chunks (out w)) ++ audio_chunk w = List.concat (pops (out w))
  /\ Forall (fun c => len c = cs) (chunks (out w)).

(** A schedule in which the controller never stops the session. *)
Definition no_halt (acts : list action) : bool :=
  forallb (fun a => match a with Halt => false | _ => true end) acts.

(** Passes of the loop still needed to empty the queue and to slice every
    complete chunk of [cs] bytes out of what has been captured. *)
Definition backlog (cs : Z) (w : world) : nat :=
  (List.length (audio_buffer (self w))
   + Z.to_nat ((len (audio_chunk w) + len (List.concat (audio_buffer (self w))))
               / cs))%nat.

(** Bytes of one window of [chunk_duration] seconds:
    sample rate * channels * bytes per sample * seconds. *)
Definition window_bytes : Z := RATE * CHANNELS * SAMPLE_WIDTH * chunk_duration.

(** ** Concrete environments and inputs *)

(** Nothing fails, every chunk is heard as "hello", the clock stands at
    12:34:56 and Ctrl-C arrives after two sleeps. *)
Definition env_hello : Env :=
  mkEnv (fun _ _ => Segments [utf8 "hello"]) (fun _ => 45296%N)
        (fun _ _ => None) (Some 2%nat).

(** One capture callback's worth of silence: 1024 samples of 16 bits. *)
Definition silent_frame : bytes := repeat x00 (Z.to_nat 2048).

(** Half a chunk of silence. *)
Definition half_chunk : bytes := repeat x00 (Z.to_nat 24000).

(** Two half chunks, captured around one pass of the worker. *)
Definition two_halves : list action :=
  [Capture half_chunk; Iterate; Capture half_chunk].

(** Twenty-four callbacks of silence (49152 bytes), then as many passes. *)
Definition short_session : list action :=
  repeat (Capture silent_frame) 24 ++ repeat Iterate 24.

(** The engine fails on every chunk. *)
Definition env_failing : Env :=
  mkEnv (fun _ _ => Raises (utf8 "engine error")) (fun _ => 45296%N)
        (fun _ _ => None) (Some 2%nat).

(** A world in which the session is recording, the queue is empty and
    [audio_chunk] holds [held]. *)
Definition holding (held : bytes) : world :=
  mkWorld (mkSelf [] true true true true) held true [].

(** The engine fails on the second chunk it is given and hears "hello" in
    every other one. *)
Definition env_second_fails : Env :=
  mkEnv (fun tr _ =>
           if Nat.eqb (List.length (transcribed tr)) 1
           then Raises (utf8 "engine error")
           else Segments [utf8 "hello"])
        (fun _ => 45296%N) (fun _ _ => None) (Some 2%nat).

(** A chunk of silence. *)
Definition silent_chunk : bytes := repeat x00 (Z.to_nat 48000).

(** Three chunks captured in six frames, and passes to process them. *)
Definition three_chunks : list action :=
  repeat (Capture half_chunk) 6 ++ repeat Iterate 9.

(** A world in which [stop_recording] has cleared the flag. *)
Definition stopped0 : world :=
  mkWorld (mkSelf [] false true true true) [] true [].

(** The transcript line as the specification words it:
    [[HH:MM:SS] <joined segment text>]. *)
Definition spec_line (timestamp text : pystr) : pystr :=
  utf8 "[" ++ timestamp ++ utf8 "] " ++ text.

(** One ASCII digit. *)
Definition is_digit (c : N) : Prop := (0x30 <= c <= 0x39)%N.

(** The engine hears three segments, one of them blank. *)
Definition env_segments : Env :=
  mkEnv (fun _ _ => Segments [utf8 "  hello "; utf8 "   "; utf8 "world"])
        (fun _ => 45296%N) (fun _ _ => None) (Some 2%nat).

(** The session of [two_halves] after the pass that slices its chunk. *)
Definition hello_session : world :=
  run env_hello (two_halves ++ [Iterate]) (snd (startup env_hello world0)).

(** The binding raises nothing when a stream or the PyAudio handle is
    stopped, closed or terminated, however often. *)
Definition teardown_ok (env : Env) : Prop :=
  forall tr,
    binding env tr stream_stop_stream = None
    /\ binding env tr stream_close = None
    /\ binding env tr p_terminate = None.

(** What one call of [stop_recording] does to the outside when the stream
    and the PyAudio handle are bound and the binding raises nothing. *)
Definition stop_events : list event :=
  [Print MSG_STOPPING; Ext stream_stop_stream; Ext stream_close;
   Ext p_terminate; Print MSG_STOPPED].

(** No input device: [p.open] raises. *)
Definition env_no_device : Env :=
  mkEnv (fun _ _ => Segments [])
        (fun _ => 0%N)
        (fun _ c => match c with
                    | p_open _ _ _ _ => Some (utf8 "Invalid input device")
                    | _ => None
                    end)
        None.

(** The world of [env_hello] after the first and the second
    [stop_recording]. *)
Definition stopped_once : world :=
  snd (stop_recording env_hello (snd (startup env_hello world0))).

Definition stopped_twice : world :=
  snd (stop_recording env_hello stopped_once).

(** ** Further inputs *)

(** One second of silence: exactly [RATE] samples. *)
Definition one_second : bytes := repeat x00 (Z.to_nat 32000).

(** Three bytes: one sample and a half. *)
Definition odd_data : bytes := [x00; x00; x00].

(** An object that was constructed and never started. *)
Definition constructed : world := snd (init env_hello world0).

(** The number of worker passes in a schedule. *)
Definition passes (acts : list action) : Z :=
  len (filter (fun a => match a with Iterate => true | _ => false end) acts).

(** Nothing fails and Ctrl-C never arrives. *)
Definition env_patient : Env :=
  mkEnv (fun _ _ => Segments [utf8 "hello"]) (fun _ => 45296%N)
        (fun _ _ => None) None.

(** The bound kept by the accumulator when no frame is longer than a chunk:
    less than [cs] bytes are held, and every queued frame has at most [cs]
    bytes. *)
Definition below_chunk (cs : Z) (w : world) : Prop :=
  len (audio_chunk w) < cs
  /\ Forall (fun f => len f <= cs) (audio_buffer (self w)).

(** The model cannot be loaded. *)
Definition env_no_model : Env :=
  mkEnv (fun _ _ => Segments [])
        (fun _ => 0%N)
        (fun _ c => match c with
                    | WhisperModel_tiny => Some (utf8 "model not found")
                    | _ => None
                    end)
        None.

(** What a successful [start_recording] does to the outside, in order. *)
Definition start_events : list event :=
  [Ext PyAudio_new; Ext (p_open FORMAT CHANNELS RATE CHUNK);
   Ext stream_start_stream;
   Print MSG_RULE; Print MSG_STARTED; Print MSG_SPEAK; Print MSG_CTRL_C;
   Print (repeat 0x3D%N 50); ThreadStart].


(** ** A finer interleaving: what is under way when the flag is cleared

    The worker reads the flag at line 95 only, and the callback at line 31
    only.  Here the test and what it guards are separate steps, so that
    [stop_recording] can fall between them.  The worker is at its test, in
    the body of a pass, or has left its loop for good; a callback that read
    the flag set holds its frame until its [put]. *)

Inductive worker_pc : Type :=
| AtTest
| InBody
| Exited.

Record system : Type := mkSystem {
  sys_world : world;
  sys_pc : worker_pc;
  sys_put : option bytes
}.

Inductive fine_action : Type :=
| CallbackTest (in_data : bytes)
| CallbackPut
| WorkerTest
| WorkerBody
| Stop.

Definition fine_step (env : Env) (a : fine_action) (s : system) : system :=
  match a with
  | CallbackTest in_data =>
      match sys_put s with
      | Some _ => s
      | None =>
          if is_recording (self (sys_world s))
          then mkSystem (sys_world s) (sys_pc s) (Some in_data)
          else s
      end
  | CallbackPut =>
      match sys_put s with
      | Some in_data =>
          mkSystem (snd (audio_buffer_put in_data (sys_world s))) (sys_pc s) None
      | None => s
      end
  | WorkerTest =>
      match sys_pc s with
      | AtTest =>
          if is_recording (self (sys_world s))
          then mkSystem (sys_world s) InBody (sys_put s)
          else mkSystem (sys_world s) Exited (sys_put s)
      | _ => s
      end
  | WorkerBody =>
      match sys_pc s with
      | InBody =>
          mkSystem (snd (loop_body env chunk_size (sys_world s))) AtTest (sys_put s)
      | _ => s
      end
  | Stop =>
      mkSystem (snd (stop_recording env (sys_world s))) (sys_pc s) (sys_put s)
  end.

Definition fine_run (env : Env) (acts : list fine_action) (s : system) : system :=
  fold_left (fun s a => fine_step env a s) acts s.

(** Passes under way: 1 in the body of a pass, 0 otherwise. *)
Definition in_flight (s : system) : Z :=
  match sys_pc s with InBody => 1 | _ => 0 end.

(** Frames a callback still has to put: 1 or 0. *)
Definition to_put (s : system) : Z :=
  match sys_put s with Some _ => 1 | None => 0 end.

(** A recording session caught in the middle of the pass that completes a
    chunk, with one callback about to put its frame. *)
Definition mid_pass : system :=
  mkSystem (mkWorld (mkSelf [half_chunk] true true true true) half_chunk true [])
           InBody (Some silent_frame).

(** * Proofs *)


(** ** Lengths and slices *)

Lemma len_app {A : Type} (a b : list A) : len (a ++ b) = len a + len b.
Proof. unfold len. rewrite length_app. lia. Qed.

Lemma len_nonneg {A : Type} (l : list A) : 0 <= len l.
Proof. unfold len. lia. Qed.

Lemma len_nil_inv {A : Type} (l : list A) : len l = 0 -> l = [].
Proof. destruct l; [reflexivity | unfold len; simpl; lia]. Qed.

Lemma slice_index_nonneg {A : Type} (n : Z) (l : list A) :
  0 <= n -> slice_index n l = Z.to_nat n.
Proof.
  intros Hn. unfold slice_index.
  destruct (n <? 0) eqn:E; [apply Z.ltb_lt in E; lia | reflexivity].
Qed.

Lemma slice_to_from {A : Type} (n : Z) (l : list A) :
  slice_to n l ++ slice_from n l = l.
Proof. apply firstn_skipn. Qed.

Lemma len_slice_to {A : Type} (n : Z) (l : list A) :
  0 <= n -> n <= len l -> len (slice_to n l) = n.
Proof.
  intros H0 Hn. unfold slice_to, len in *.
  rewrite slice_index_nonneg by assumption.
  rewrite length_firstn. lia.
Qed.

Lemma len_slice_from {A : Type} (n : Z) (l : list A) :
  0 <= n -> n <= len l -> len (slice_from n l) = len l - n.
Proof.
  intros H0 Hn. unfold slice_from, len in *.
  rewrite slice_index_nonneg by assumption.
  rewrite length_skipn. lia.
Qed.

Lemma pair_induction {A : Type} (P : list A -> Prop) :
  P [] -> (forall a, P [a]) -> (forall a b r, P r -> P (a :: b :: r)) ->
  forall l, P l.
Proof.
  intros H0 H1 H2 l.
  assert (H : P l /\ forall a, P (a :: l)).
  { induction l as [|x l [IH1 IH2]]; split; auto. }
  apply H.
Qed.

Lemma len_int16_samples (b : bytes) : len (int16_samples b) = len b / 2.
Proof.
  induction b as [|a|a b0 r IH] using pair_induction.
  - reflexivity.
  - reflexivity.
  - change (len (int16_samples (a :: b0 :: r)))
      with (len (int16_of a b0 :: int16_samples r)).
    unfold len in *. cbn [List.length].
    rewrite !Nat2Z.inj_succ. rewrite IH.
    Z.div_mod_to_equations. lia.
Qed.

(** ** Equations of the methods *)

Opaque MSG_INIT MSG_LOADING MSG_LOADED MSG_AUDIO_ERROR MSG_RULE MSG_STARTED
  MSG_SPEAK MSG_CTRL_C MSG_CLOCK MSG_LOOP_ERROR MSG_STOPPING MSG_STOPPED
  MSG_INTERRUPTED MSG_ERROR MSG_FROMBUFFER strftime_HMS transcript_line.

Lemma emits_nil (w : world) : emits [] w = w.
Proof. destruct w. unfold emits. simpl. now rewrite app_nil_r. Qed.

Lemma emits_emits (a b : list event) (w : world) :
  emits b (emits a w) = emits (a ++ b) w.
Proof. unfold emits. simpl. now rewrite app_assoc. Qed.

Lemma log_emits (e : event) (w : world) : log e w = emits [e] w.
Proof. reflexivity. Qed.

(** [process_audio] by cases: odd length, short waveform, engine failure,
    engine success.  No exception leaves it. *)
Lemma process_audio_eq (env : Env) (audio_data : bytes) (w : world) :
  process_audio env audio_data w =
  if Z.even (len audio_data) then
    if len (int16_samples audio_data) <? RATE * 1 then (inr None, w)
    else
      match engine env (out w) (int16_samples audio_data) with
      | Raises msg =>
          (inr None,
           emits [Transcribe (int16_samples audio_data);
                  Print (MSG_AUDIO_ERROR ++ msg)] w)
      | Segments texts =>
          (inr (Some (strip (collect texts))),
           emits [Transcribe (int16_samples audio_data)] w)
      end
  else (inr None, emits [Print (MSG_AUDIO_ERROR ++ MSG_FROMBUFFER)] w).
Proof.
  unfold process_audio, try_except, bind, frombuffer_int16.
  destruct (Z.even (len audio_data)).
  - unfold ret at 1.
    destruct (len (int16_samples audio_data) <? RATE * 1); [reflexivity|].
    unfold model_transcribe.
    destruct (engine env (out w) (int16_samples audio_data)); simpl.
    + unfold print, update, ret. rewrite !log_emits, emits_emits. reflexivity.
    + reflexivity.
  - reflexivity.
Qed.

Lemma process_audio_returns (env : Env) (audio_data : bytes) (w : world) :
  exists r w', process_audio env audio_data w = (inr r, w').
Proof.
  rewrite process_audio_eq.
  repeat match goal with
         | |- context [if ?b then _ else _] => destruct b
         | |- context [match engine ?e ?t ?a with _ => _ end] =>
             destruct (engine e t a)
         end; eauto.
Qed.

Lemma poll_eq (w : world) : poll w = (inr tt, polled w).
Proof.
  destruct w as [[q rec hm hp hs] ac wh tr].
  destruct q; reflexivity.
Qed.

Lemma slice_and_process_eq (env : Env) (cs : Z) (w : world) :
  slice_and_process env cs w =
  if cs <=? len (audio_chunk w) then
    match process_audio env (slice_to cs (audio_chunk w)) (sliced cs w) with
    | (inr (Some t), w3) =>
        if nonempty t then
          (inr tt,
           log (Print (transcript_line (strftime_HMS (clock env (out w3))) t)) w3)
        else (inr tt, w3)
    | (_, w3) => (inr tt, w3)
    end
  else (inr tt, w).
Proof.
  unfold slice_and_process, bind, read.
  destruct (cs <=? len (audio_chunk w)); [|reflexivity].
  unfold update at 1 2. fold (sliced cs w).
  destruct (process_audio_returns env (slice_to cs (audio_chunk w)) (sliced cs w))
    as (r & w3 & E).
  rewrite E. destruct r as [t|]; [|reflexivity].
  destruct (nonempty t); reflexivity.
Qed.

Lemma loop_body_eq (env : Env) (cs : Z) (w : world) :
  loop_body env cs w =
  let w1 := polled w in
  if cs <=? len (audio_chunk w1) then
    match process_audio env (slice_to cs (audio_chunk w1)) (sliced cs w1) with
    | (inr (Some t), w3) =>
        if nonempty t then
          (inr tt,
           log (Print (transcript_line (strftime_HMS (clock env (out w3))) t)) w3)
        else (inr tt, w3)
    | (_, w3) => (inr tt, w3)
    end
  else (inr tt, w1).
Proof.
  unfold loop_body, loop_try, bind. rewrite poll_eq, slice_and_process_eq.
  cbv zeta.
  destruct (cs <=? len (audio_chunk (polled w))); [|reflexivity].
  destruct (process_audio_returns env (slice_to cs (audio_chunk (polled w)))
              (sliced cs (polled w))) as (r & w3 & E).
  rewrite E. destruct r as [t|]; [|reflexivity].
  destruct (nonempty t); reflexivity.
Qed.


(** ** What one pass of the worker loop changes *)

Lemma pops_app (a b : list event) : pops (a ++ b) = pops a ++ pops b.
Proof. apply flat_map_app. Qed.

Lemma chunks_app (a b : list event) : chunks (a ++ b) = chunks a ++ chunks b.
Proof. apply flat_map_app. Qed.

Lemma sleeps_app (a b : list event) : sleeps (a ++ b) = sleeps a ++ sleeps b.
Proof. apply flat_map_app. Qed.

Lemma transcribed_app (a b : list event) :
  transcribed (a ++ b) = transcribed a ++ transcribed b.
Proof. apply flat_map_app. Qed.

Lemma printed_app (a b : list event) : printed (a ++ b) = printed a ++ printed b.
Proof. apply flat_map_app. Qed.

Lemma externs_app (a b : list event) : externs (a ++ b) = externs a ++ externs b.
Proof. apply flat_map_app. Qed.

Lemma quiet_app (a b : list event) : quiet a -> quiet b -> quiet (a ++ b).
Proof.
  unfold quiet. intros (A1 & A2 & A3 & A4) (B1 & B2 & B3 & B4).
  rewrite pops_app, chunks_app, sleeps_app, externs_app.
  rewrite A1, A2, A3, A4, B1, B2, B3, B4. auto.
Qed.

Lemma process_audio_frame (env : Env) (audio_data : bytes) (w : world) :
  exists r evs,
    process_audio env audio_data w = (inr r, emits evs w) /\ quiet evs.
Proof.
  rewrite process_audio_eq.
  repeat match goal with
         | |- context [if ?b then _ else _] => destruct b
         | |- context [match engine ?e ?t ?a with _ => _ end] =>
             destruct (engine e t a)
         end.
  1: exists None, []; rewrite emits_nil.
  2, 3, 4: eexists; eexists.
  all: split; [reflexivity | repeat split; reflexivity].
Qed.

Lemma loop_body_frame (env : Env) (cs : Z) (w : world) :
  exists evs,
    loop_body env cs w =
      (inr tt,
       if cs <=? len (audio_chunk (polled w))
       then emits evs (sliced cs (polled w)) else polled w)
    /\ quiet evs.
Proof.
  rewrite loop_body_eq. cbv zeta.
  destruct (cs <=? len (audio_chunk (polled w))).
  - destruct (process_audio_frame env (slice_to cs (audio_chunk (polled w)))
                (sliced cs (polled w))) as (r & evs & E & Q).
    rewrite E. destruct r as [t|].
    + destruct (nonempty t).
      * eexists. rewrite log_emits, emits_emits. split; [reflexivity|].
        apply quiet_app; [assumption | repeat split; reflexivity].
      * eauto.
    + eauto.
  - exists []. split; [reflexivity | repeat split; reflexivity].
Qed.

(** No exception ever leaves one pass of the loop. *)
Lemma loop_body_returns (env : Env) (cs : Z) (w : world) :
  fst (loop_body env cs w) = inr tt.
Proof.
  destruct (loop_body_frame env cs w) as (evs & E & _). now rewrite E.
Qed.

Lemma polled_fields (w : world) :
  self (polled w) =
    mkSelf (tl (audio_buffer (self w))) (is_recording (self w))
           (has_model (self w)) (has_p (self w)) (has_stream (self w))
  /\ audio_chunk (polled w) = audio_chunk w ++ hd [] (audio_buffer (self w))
  /\ whisper (polled w) = whisper w
  /\ out (polled w) =
       out w ++ match audio_buffer (self w) with [] => [] | f :: _ => [Pop f] end.
Proof.
  destruct w as [[q rec hm hp hs] ac wh tr]. unfold polled. simpl.
  destruct q; simpl; rewrite ?app_nil_r; auto.
Qed.

(** ** The accumulate-and-slice invariant *)

Lemma lossless_polled (cs : Z) (w : world) :
  lossless cs w -> lossless cs (polled w).
Proof.
  intros [H1 H2]. destruct (polled_fields w) as (_ & Ea & _ & Eo).
  unfold lossless. rewrite Ea, Eo, pops_app, chunks_app.
  destruct (audio_buffer (self w)) as [|f q]; cbn [hd pops chunks flat_map].
  - rewrite !app_nil_r. split; assumption.
  - rewrite !app_nil_r, List.concat_app. cbn [List.concat].
    rewrite app_nil_r, app_assoc, H1. split; [reflexivity | assumption].
Qed.

Lemma lossless_sliced (cs : Z) (evs : list event) (w : world) :
  0 <= cs -> cs <= len (audio_chunk w) -> quiet evs ->
  lossless cs w -> lossless cs (emits evs (sliced cs w)).
Proof.
  intros H0 Hle (Qp & Qc & _) [H1 H2]. unfold lossless, emits, sliced. simpl.
  rewrite !pops_app, !chunks_app, Qp, Qc. simpl. rewrite !app_nil_r.
  split.
  - rewrite List.concat_app. simpl. rewrite app_nil_r, <- app_assoc.
    rewrite slice_to_from. exact H1.
  - apply Forall_app. split; [exact H2|].
    constructor; [|constructor]. now apply len_slice_to.
Qed.

Lemma lossless_loop_body (env : Env) (cs : Z) (w : world) :
  0 <= cs -> lossless cs w -> lossless cs (snd (loop_body env cs w)).
Proof.
  intros H0 L. destruct (loop_body_frame env cs w) as (evs & E & Q).
  rewrite E. simpl. apply lossless_polled in L.
  destruct (cs <=? len (audio_chunk (polled w))) eqn:C; [|exact L].
  apply Z.leb_le in C. now apply lossless_sliced.
Qed.

(** ** The callback and the controller leave the worker's data alone *)

Lemma audio_callback_eq (in_data : bytes) (w : world) :
  audio_callback in_data w =
  (inr (in_data, paContinue),
   if is_recording (self w)
   then set_audio_buffer (audio_buffer (self w) ++ [in_data]) w
   else w).
Proof.
  destruct w as [[q rec hm hp hs] ac wh tr]. destruct rec; reflexivity.
Qed.

Lemma stop_recording_frame (env : Env) (w : world) :
  exists evs,
    snd (stop_recording env w) = emits evs (set_is_recording false w)
    /\ pops evs = [] /\ chunks evs = [] /\ transcribed evs = [].
Proof.
  destruct w as [[q rec hm hp hs] ac wh tr].
  unfold stop_recording, bind, print, update, read, extern, ret.
  cbn [self has_stream has_p out log set_is_recording is_recording
       audio_buffer has_model audio_chunk whisper fst snd].
  destruct hs, hp; unfold emits, set_is_recording, log;
    repeat first
      [ progress simpl
      | match goal with
        | |- context [match binding ?e ?t ?c with _ => _ end] =>
            destruct (binding e t c)
        end ];
    eexists; rewrite <- ?app_assoc; simpl;
    (split; [reflexivity | repeat split; reflexivity]).
Qed.

Lemma chunk_size_pos : 0 < chunk_size.
Proof. reflexivity. Qed.

Lemma lossless_step (env : Env) (a : action) (w : world) :
  lossless chunk_size w -> lossless chunk_size (step env a w).
Proof.
  intros L. destruct a as [in_data| |]; unfold step.
  - rewrite audio_callback_eq. cbn [snd].
    destruct (is_recording (self w)); exact L.
  - destruct (is_recording (self w)); [|exact L].
    apply lossless_loop_body; [pose proof chunk_size_pos; lia | exact L].
  - destruct (stop_recording_frame env w) as (evs & E & Hp & Hc & _).
    rewrite E. destruct L as [L1 L2]. unfold lossless, emits. cbn [out audio_chunk].
    fold (set_is_recording false w).
    change (out (set_is_recording false w)) with (out w).
    change (audio_chunk (set_is_recording false w)) with (audio_chunk w).
    rewrite pops_app, chunks_app, Hp, Hc, !app_nil_r. split; assumption.
Qed.

Lemma run_app (env : Env) (a b : list action) (w : world) :
  run env (a ++ b) w = run env b (run env a w).
Proof. apply fold_left_app. Qed.

Lemma run_cons (env : Env) (a : action) (acts : list action) (w : world) :
  run env (a :: acts) w = run env acts (step env a w).
Proof. reflexivity. Qed.

Lemma lossless_run (env : Env) (acts : list action) (w : world) :
  lossless chunk_size w -> lossless chunk_size (run env acts w).
Proof.
  revert w. induction acts as [|a acts IH]; intros w L; [exact L|].
  rewrite run_cons. apply IH. now apply lossless_step.
Qed.


(** ** Frames are delivered in order, once *)

Lemma loop_body_self (env : Env) (cs : Z) (w : world) :
  self (snd (loop_body env cs w)) = self (polled w).
Proof.
  destruct (loop_body_frame env cs w) as (evs & E & _). rewrite E. cbn [snd].
  destruct (cs <=? len (audio_chunk (polled w))); reflexivity.
Qed.

Lemma loop_body_pops (env : Env) (cs : Z) (w : world) :
  pops (out (snd (loop_body env cs w))) = pops (out (polled w)).
Proof.
  destruct (loop_body_frame env cs w) as (evs & E & Q & _). rewrite E. cbn [snd].
  destruct (cs <=? len (audio_chunk (polled w))); [|reflexivity].
  unfold emits, sliced, log. cbn [out set_audio_chunk].
  rewrite !pops_app, Q. cbn [pops flat_map]. now rewrite !app_nil_r.
Qed.

Lemma step_delivery (env : Env) (a : action) (w : world) :
  no_halt [a] = true -> is_recording (self w) = true ->
  is_recording (self (step env a w)) = true
  /\ pops (out (step env a w)) ++ audio_buffer (self (step env a w)) =
     pops (out w) ++ audio_buffer (self w) ++ captured [a].
Proof.
  intros Ha Hrec. destruct a as [in_data| |]; [| |discriminate Ha]; unfold step.
  - rewrite audio_callback_eq, Hrec. cbn [snd captured flat_map].
    destruct w as [[q rec hm hp hs] ac wh tr]. cbn in *. auto.
  - rewrite Hrec, loop_body_self, loop_body_pops.
    destruct (polled_fields w) as (Es & _ & _ & Eo). rewrite Es, Eo.
    cbn [is_recording audio_buffer captured flat_map]. split; [exact Hrec|].
    rewrite pops_app, app_nil_r.
    destruct (audio_buffer (self w)) as [|f q]; cbn [pops flat_map tl app];
      rewrite ?app_nil_r; [reflexivity|].
    now rewrite <- app_assoc.
Qed.

Lemma captured_app (a b : list action) : captured (a ++ b) = captured a ++ captured b.
Proof. apply flat_map_app. Qed.

Lemma run_delivery (env : Env) (acts : list action) (w : world) :
  no_halt acts = true -> is_recording (self w) = true ->
  is_recording (self (run env acts w)) = true
  /\ pops (out (run env acts w)) ++ audio_buffer (self (run env acts w)) =
     pops (out w) ++ audio_buffer (self w) ++ captured acts.
Proof.
  revert w. induction acts as [|a acts IH]; intros w Hn Hrec.
  - cbn. rewrite !app_nil_r. auto.
  - cbn [no_halt forallb] in Hn. apply andb_true_iff in Hn. destruct Hn as [Ha Hn].
    destruct (step_delivery env a w) as [R1 D1];
      [cbn [no_halt forallb]; now rewrite Ha | exact Hrec |].
    rewrite run_cons. destruct (IH (step env a w) Hn R1) as [R2 D2].
    split; [exact R2|]. rewrite D2, app_assoc, D1.
    change (a :: acts) with ([a] ++ acts). rewrite captured_app.
    now rewrite <- !app_assoc.
Qed.

(** ** Draining: enough passes slice every complete chunk *)

Lemma len_concat_cons {A : Type} (a : list A) (l : list (list A)) :
  len (List.concat (a :: l)) = len a + len (List.concat l).
Proof. cbn [List.concat]. apply len_app. Qed.

Lemma div_sub_self (T cs : Z) :
  0 < cs -> cs <= T ->
  (Z.to_nat ((T - cs) / cs) < Z.to_nat (T / cs))%nat.
Proof.
  intros Hcs HT.
  pose proof (Z.div_add (T - cs) 1 cs ltac:(lia)) as E.
  replace (T - cs + 1 * cs) with T in E by lia.
  assert (0 <= (T - cs) / cs) by (apply Z.div_pos; lia).
  lia.
Qed.

Lemma backlog_loop_body (env : Env) (cs : Z) (w : world) :
  0 < cs ->
  (backlog cs (snd (loop_body env cs w)) <= Nat.pred (backlog cs w))%nat.
Proof.
  intros Hcs. destruct (loop_body_frame env cs w) as (evs & E & _).
  rewrite E. cbn [snd]. unfold backlog.
  destruct (polled_fields w) as (Es & Ea & _ & _).
  pose proof (len_nonneg (audio_chunk w)) as Hac.
  destruct (cs <=? len (audio_chunk (polled w))) eqn:C.
  - apply Z.leb_le in C.
    change (self (emits evs (sliced cs (polled w)))) with (self (polled w)).
    change (audio_chunk (emits evs (sliced cs (polled w))))
      with (slice_from cs (audio_chunk (polled w))).
    rewrite len_slice_from by lia. rewrite Es. cbn [audio_buffer].
    revert C. rewrite Ea.
    destruct (audio_buffer (self w)) as [|f q]; cbn [hd tl List.length List.concat];
      rewrite ?app_nil_r, ?len_app; intros C.
    + change (@len byte []) with 0. rewrite !Z.add_0_r.
      pose proof (div_sub_self Hcs C). lia.
    + pose proof (len_nonneg (List.concat q)) as Hq.
      replace (len (audio_chunk w) + len f - cs + len (List.concat q))
        with (len (audio_chunk w) + (len f + len (List.concat q)) - cs) by lia.
      pose proof (@div_sub_self
                    (len (audio_chunk w) + (len f + len (List.concat q))) cs
                    Hcs ltac:(lia)).
      lia.
  - apply Z.leb_gt in C. rewrite Es. cbn [audio_buffer].
    revert C. rewrite Ea.
    destruct (audio_buffer (self w)) as [|f q]; cbn [hd tl List.length List.concat];
      rewrite ?app_nil_r, ?len_app; intros C.
    + change (@len byte []) with 0. rewrite Z.add_0_r.
      rewrite Z.div_small by lia. cbn. lia.
    + rewrite Z.add_assoc. lia.
Qed.

Lemma iterate_recording (env : Env) (n : nat) (w : world) :
  is_recording (self w) = true ->
  is_recording (self (run env (repeat Iterate n) w)) = true
  /\ (backlog chunk_size (run env (repeat Iterate n) w)
      <= backlog chunk_size w - n)%nat.
Proof.
  revert w. induction n as [|n IH]; intros w Hrec.
  - cbn. split; [exact Hrec | lia].
  - cbn [repeat]. rewrite run_cons.
    assert (Hs : step env Iterate w = snd (loop_body env chunk_size w))
      by (unfold step; now rewrite Hrec).
    assert (R1 : is_recording (self (step env Iterate w)) = true).
    { rewrite Hs, loop_body_self.
      destruct (polled_fields w) as (Es & _). rewrite Es. exact Hrec. }
    destruct (IH _ R1) as [R2 B2]. split; [exact R2|].
    pose proof (backlog_loop_body env w chunk_size_pos) as B1.
    rewrite <- Hs in B1. lia.
Qed.

Lemma backlog_zero (cs : Z) (w : world) :
  0 < cs -> backlog cs w = 0%nat ->
  audio_buffer (self w) = [] /\ len (audio_chunk w) < cs.
Proof.
  intros Hcs B. unfold backlog in B.
  destruct (audio_buffer (self w)) as [|f q]; [|cbn in B; lia].
  split; [reflexivity|].
  change (len (@List.concat byte [])) with 0 in B. rewrite Z.add_0_r in B.
  cbn [List.length] in B.
  pose proof (len_nonneg (audio_chunk w)) as H0.
  destruct (Z.lt_ge_cases (len (audio_chunk w)) cs) as [Hlt|Hge]; [exact Hlt|].
  assert (1 <= len (audio_chunk w) / cs) by (apply Z.div_le_lower_bound; lia).
  lia.
Qed.

Lemma len_concat_uniform {A : Type} (cs : Z) (l : list (list A)) :
  Forall (fun c => len c = cs) l -> len (List.concat l) = len l * cs.
Proof.
  induction 1 as [|c l Hc _ IH].
  - reflexivity.
  - rewrite len_concat_cons, IH, Hc. unfold len. cbn [List.length]. lia.
Qed.

(** ** The world in which the worker starts *)

Lemma startup_frame (env : Env) (w : world) :
  audio_buffer (self (snd (startup env w))) = []
  /\ audio_chunk (snd (startup env w)) = audio_chunk w
  /\ (exists evs, out (snd (startup env w)) = out w ++ evs
                  /\ pops evs = [] /\ chunks evs = [])
  /\ (fst (startup env w) = inr tt ->
      is_recording (self (snd (startup env w))) = true).
Proof.
  destruct w as [[q rec hm hp hs] ac wh tr].
  unfold startup, init, start_recording, bind, print, update, extern, ret,
    set_has_model, set_has_p, set_has_stream, set_is_recording,
    set_audio_buffer, set_whisper, log.
  repeat first
    [ progress simpl
    | match goal with
      | |- context [match binding ?e ?t ?c with _ => _ end] =>
          destruct (binding e t c)
      end ];
    (split; [reflexivity|]); (split; [reflexivity|]);
    (split; [| intros H; first [discriminate H | reflexivity]]);
    eexists; rewrite <- ?app_assoc; simpl;
    (split; [reflexivity | split; reflexivity]).
Qed.

Lemma lossless_startup (env : Env) (cs : Z) :
  lossless cs (snd (startup env world0)).
Proof.
  destruct (startup_frame env world0) as (_ & Ea & (evs & Eo & Hp & Hc) & _).
  unfold lossless. rewrite Ea, Eo. cbn [out audio_chunk world0 app].
  rewrite Hp, Hc. split; [reflexivity | constructor].
Qed.

(** ** C3 *)

(** C3.  After every step of every interleaving of capture callbacks, passes
    of the worker loop and calls of [stop_recording] (that is, after every
    prefix of every schedule), the bytes held in [audio_chunk] are the bytes
    polled from the queue so far minus the number of chunks sliced so far
    times [chunk_size]. *)
Theorem C3_accumulator_balance (env : Env) (acts : list action) (n : nat) :
  let w := run env (firstn n acts) (snd (startup env world0)) in
  len (audio_chunk w) =
    len (List.concat (pops (out w))) - len (chunks (out w)) * chunk_size.
Proof.
  intros w.
  assert (L : lossless chunk_size w)
    by (apply lossless_run, lossless_startup).
  destruct L as [L1 L2]. rewrite <- L1, len_app.
  rewrite (len_concat_uniform L2). lia.
Qed.

(** ** C2 *)

Lemma no_halt_app (a b : list action) :
  no_halt (a ++ b) = no_halt a && no_halt b.
Proof. apply forallb_app. Qed.

Lemma no_halt_iterate (n : nat) : no_halt (repeat Iterate n) = true.
Proof. induction n; [reflexivity | assumption]. Qed.

Lemma captured_iterate (n : nat) : captured (repeat Iterate n) = [].
Proof. induction n; [reflexivity | assumption]. Qed.

Lemma length_concat_le {A : Type} (l : list (list A)) (a b : list (list A)) :
  a ++ b = l -> (List.length b <= List.length l)%nat.
Proof. intros <-. rewrite length_app. lia. Qed.

(** C2.  Take a session that has started, any interleaving of capture
    callbacks and worker passes in which the session is not stopped, and let
    the worker run at least as many further passes as there are frames plus
    complete chunks.  If the captured bytes are a multiple of [chunk_size],
    then the number of chunks sliced is the total divided by [chunk_size],
    every chunk has [chunk_size] bytes, the chunks concatenated in the order
    of emission are exactly the captured bytes, and nothing is left in the
    queue or in [audio_chunk]. *)
Theorem C2_chunks_reassemble_input
    (env : Env) (acts : list action) (n : nat) :
  fst (startup env world0) = inr tt ->
  no_halt acts = true ->
  len (List.concat (captured acts)) mod chunk_size = 0 ->
  (List.length (captured acts)
   + Z.to_nat (len (List.concat (captured acts)) / chunk_size) <= n)%nat ->
  let w := run env (acts ++ repeat Iterate n) (snd (startup env world0)) in
  len (chunks (out w)) = len (List.concat (captured acts)) / chunk_size
  /\ Forall (fun c => len c = chunk_size) (chunks (out w))
  /\ List.concat (chunks (out w)) = List.concat (captured acts)
  /\ audio_buffer (self w) = []
  /\ audio_chunk w = [].
Proof.
  intros Hstart Hnh Hmod Hn w.
  pose proof chunk_size_pos as Hcs.
  set (w0 := snd (startup env world0)) in *.
  set (total := len (List.concat (captured acts))) in *.
  destruct (startup_frame env world0) as (Eq0 & Ea0 & (evs & Eo0 & Hp0 & Hc0) & Hrec0).
  specialize (Hrec0 Hstart). fold w0 in Eq0, Ea0, Eo0, Hrec0.
  assert (P0 : pops (out w0) = [])
    by (rewrite Eo0; cbn [out world0 app]; exact Hp0).
  (* the world after the interleaving *)
  set (w1 := run env acts w0).
  destruct (run_delivery env acts w0 Hnh Hrec0) as [Hrec1 D1]. fold w1 in Hrec1, D1.
  rewrite P0, Eq0 in D1. cbn [app] in D1.
  assert (L1 : lossless chunk_size w1) by (apply lossless_run, lossless_startup).
  (* its backlog is at most frames + chunks *)
  assert (B1 : (backlog chunk_size w1
                <= List.length (captured acts) + Z.to_nat (total / chunk_size))%nat).
  { unfold backlog.
    pose proof (@length_concat_le _ _ _ _ D1) as Hq.
    destruct L1 as [L1a L1b].
    assert (Hsum : len (List.concat (chunks (out w1))) + len (audio_chunk w1)
                   + len (List.concat (audio_buffer (self w1))) = total).
    { unfold total. rewrite <- D1, List.concat_app, len_app, <- L1a, len_app. lia. }
    pose proof (len_nonneg (List.concat (chunks (out w1)))) as H1.
    pose proof (len_nonneg (audio_chunk w1)) as H2.
    pose proof (len_nonneg (List.concat (audio_buffer (self w1)))) as H3.
    assert ((len (audio_chunk w1) + len (List.concat (audio_buffer (self w1))))
              / chunk_size <= total / chunk_size)
      by (apply Z.div_le_mono; lia).
    assert (0 <= (len (audio_chunk w1)
                  + len (List.concat (audio_buffer (self w1)))) / chunk_size)
      by (apply Z.div_pos; lia).
    lia. }
  (* the further passes drain it *)
  assert (Ew : w = run env (repeat Iterate n) w1)
    by (unfold w, w1; apply run_app).
  destruct (iterate_recording env n w1 Hrec1) as [_ B2]. rewrite <- Ew in B2.
  assert (B0 : backlog chunk_size w = 0%nat) by lia.
  destruct (backlog_zero w Hcs B0) as [Hq Hlt].
  destruct (run_delivery env (acts ++ repeat Iterate n) w0) as [_ D2];
    [rewrite no_halt_app, Hnh, no_halt_iterate; reflexivity | exact Hrec0 |].
  fold w in D2. rewrite P0, Eq0, Hq, captured_app, captured_iterate, !app_nil_r in D2.
  cbn [app] in D2.
  assert (L : lossless chunk_size w)
    by (unfold w; apply lossless_run, lossless_startup).
  destruct L as [La Lb]. rewrite D2 in La.
  assert (Hlen : len (chunks (out w)) * chunk_size + len (audio_chunk w) = total).
  { unfold total. rewrite <- La, len_app, (len_concat_uniform Lb). reflexivity. }
  pose proof (len_nonneg (audio_chunk w)) as Hac.
  pose proof (len_nonneg (chunks (out w))) as Hch.
  assert (Hk : total = chunk_size * (total / chunk_size))
    by (apply Z.div_exact; lia).
  assert (Hcount : len (chunks (out w)) = total / chunk_size) by nia.
  assert (Hempty : audio_chunk w = []) by (apply len_nil_inv; nia).
  repeat split; try assumption.
  rewrite Hempty, app_nil_r in La. exact La.
Qed.

(** Witness of C2: two frames of 24000 bytes, three further passes. *)
Lemma C2_chunks_reassemble_input_witness :
  let w := run env_hello (two_halves ++ repeat Iterate 3)
               (snd (startup env_hello world0)) in
  len (chunks (out w)) = len (List.concat (captured two_halves)) / chunk_size
  /\ Forall (fun c => len c = chunk_size) (chunks (out w))
  /\ List.concat (chunks (out w)) = List.concat (captured two_halves)
  /\ audio_buffer (self w) = []
  /\ audio_chunk w = [].
Proof.
  apply (@C2_chunks_reassemble_input env_hello two_halves 3).
  - reflexivity.
  - reflexivity.
  - vm_compute. reflexivity.
  - vm_compute. lia.
Defined.

(** ** C1 *)

(** C1.  Every chunk the worker slices, in any interleaving, has
    [chunk_size] = 48000 bytes, while a window of 3 seconds of 16 kHz mono
    16-bit audio has 96000 bytes: [chunk_size] counts samples and is used as
    a count of bytes.  In particular 24 callbacks of 1024 samples
    (49152 bytes, about 1.5 seconds) already produce a chunk. *)
Theorem C1_chunk_is_half_a_window :
  (forall env acts,
      Forall (fun c => len c = chunk_size)
             (chunks (out (run env acts (snd (startup env world0))))))
  /\ chunk_size = 48000
  /\ window_bytes = 96000
  /\ len (List.concat (captured short_session)) = 49152
  /\ map (fun c => len c)
         (chunks (out (run env_hello short_session
                           (snd (startup env_hello world0))))) = [48000].
Proof.
  split; [|repeat split; vm_compute; reflexivity].
  intros env acts.
  apply (lossless_run env acts (lossless_startup env chunk_size)).
Qed.

(** ** C6 *)

Lemma loop_body_sleeps (env : Env) (cs : Z) (w : world) :
  sleeps (out (snd (loop_body env cs w))) = sleeps (out w).
Proof.
  destruct (loop_body_frame env cs w) as (evs & E & _ & _ & Q & _). rewrite E.
  cbn [snd]. destruct (polled_fields w) as (_ & _ & _ & Eo).
  assert (P : sleeps (out (polled w)) = sleeps (out w)).
  { rewrite Eo, sleeps_app.
    destruct (audio_buffer (self w)); cbn; now rewrite app_nil_r. }
  destruct (cs <=? len (audio_chunk (polled w))); [|exact P].
  unfold emits, sliced, log. cbn [out set_audio_chunk].
  rewrite !sleeps_app, Q, P. cbn. now rewrite !app_nil_r.
Qed.

(** C6.  The worker thread never sleeps: whatever the queue holds, no pass
    of the loop adds a [Sleep] event, because [get_nowait] is only called
    after [empty()] returned false and so never raises [queue.Empty].  A pass
    that finds the queue empty and nothing to slice changes nothing at all,
    and the loop goes straight to its next pass. *)
Theorem C6_empty_queue_pass_does_not_sleep :
  (forall env fuel w,
      sleeps (out (snd (process_audio_thread env fuel w))) = sleeps (out w))
  /\ (forall env rec hm hp hs wh tr,
         loop_body env chunk_size (mkWorld (mkSelf [] rec hm hp hs) [] wh tr) =
         (inr tt, mkWorld (mkSelf [] rec hm hp hs) [] wh tr)).
Proof.
  split.
  - intros env fuel. induction fuel as [|fuel IH]; intros w; [reflexivity|].
    cbn [process_audio_thread].
    destruct (is_recording (self w)); [|reflexivity].
    pose proof (loop_body_returns env chunk_size w) as R.
    pose proof (loop_body_sleeps env chunk_size w) as S.
    destruct (loop_body env chunk_size w) as [[e|u] w']; cbn [fst snd] in *.
    + discriminate R.
    + rewrite IH. exact S.
  - intros. rewrite loop_body_eq. reflexivity.
Qed.

(** ** C7 *)

(** C7.  For every [audio_data] of fewer than [RATE] samples (less than one
    second), [process_audio] returns [None] and the engine is not called. *)
Theorem C7_short_chunk_not_transcribed
    (env : Env) (audio_data : bytes) (w : world) :
  len audio_data / SAMPLE_WIDTH < RATE ->
  fst (process_audio env audio_data w) = inr None
  /\ transcribed (out (snd (process_audio env audio_data w)))
     = transcribed (out w).
Proof.
  intros Hshort. rewrite process_audio_eq.
  destruct (Z.even (len audio_data)).
  - rewrite len_int16_samples.
    assert (E : (len audio_data / 2 <? RATE * 1) = true)
      by (apply Z.ltb_lt; unfold SAMPLE_WIDTH in Hshort; lia).
    rewrite E. split; reflexivity.
  - split; [reflexivity|]. unfold emits. cbn [snd out].
    rewrite transcribed_app. cbn. now rewrite app_nil_r.
Qed.

(** Witness of C7: one callback's frame of 1024 samples. *)
Lemma C7_short_chunk_not_transcribed_witness :
  fst (process_audio env_hello silent_frame (holding [])) = inr None
  /\ transcribed (out (snd (process_audio env_hello silent_frame (holding []))))
     = transcribed (out (holding [])).
Proof.
  apply C7_short_chunk_not_transcribed. vm_compute. reflexivity.
Defined.

(** ** C5 *)

(** A chunk of [chunk_size] bytes always reaches the engine. *)
Lemma process_audio_chunk (env : Env) (audio_data : bytes) (w : world) :
  len audio_data = chunk_size ->
  process_audio env audio_data w =
  match engine env (out w) (int16_samples audio_data) with
  | Raises msg =>
      (inr None,
       emits [Transcribe (int16_samples audio_data);
              Print (MSG_AUDIO_ERROR ++ msg)] w)
  | Segments texts =>
      (inr (Some (strip (collect texts))),
       emits [Transcribe (int16_samples audio_data)] w)
  end.
Proof.
  intros Hlen. rewrite process_audio_eq, len_int16_samples, Hlen. reflexivity.
Qed.

Lemma loop_body_transcribed (env : Env) (w : world) :
  transcribed (out w) = map int16_samples (chunks (out w)) ->
  transcribed (out (snd (loop_body env chunk_size w)))
  = map int16_samples (chunks (out (snd (loop_body env chunk_size w)))).
Proof.
  intros H. rewrite loop_body_eq. cbv zeta.
  destruct (polled_fields w) as (_ & _ & _ & Eo).
  assert (P : transcribed (out (polled w)) = map int16_samples (chunks (out (polled w)))).
  { rewrite Eo, transcribed_app, chunks_app, map_app, H.
    destruct (audio_buffer (self w)); reflexivity. }
  destruct (chunk_size <=? len (audio_chunk (polled w))) eqn:C; [|exact P].
  apply Z.leb_le in C.
  rewrite process_audio_chunk
    by (apply len_slice_to; [pose proof chunk_size_pos; lia | exact C]).
  set (d := slice_to chunk_size (audio_chunk (polled w))).
  assert (S : transcribed (out (sliced chunk_size (polled w))) ++ [int16_samples d]
              = map int16_samples (chunks (out (sliced chunk_size (polled w))))).
  { unfold sliced, log. cbn [out set_audio_chunk]. fold d.
    rewrite transcribed_app, chunks_app, map_app, P. cbn. now rewrite app_nil_r. }
  destruct (engine env (out (sliced chunk_size (polled w))) (int16_samples d));
    [| destruct (nonempty (strip (collect texts)))];
    cbn [snd]; unfold emits, log; cbn [out];
    rewrite ?transcribed_app, ?chunks_app, ?map_app; cbn [transcribed chunks flat_map map app];
    rewrite ?app_nil_r; exact S.
Qed.

Lemma step_transcribed (env : Env) (a : action) (w : world) :
  transcribed (out w) = map int16_samples (chunks (out w)) ->
  transcribed (out (step env a w)) = map int16_samples (chunks (out (step env a w))).
Proof.
  intros H. destruct a as [in_data| |]; unfold step.
  - rewrite audio_callback_eq. cbn [snd].
    destruct (is_recording (self w)); exact H.
  - destruct (is_recording (self w)); [|exact H].
    now apply loop_body_transcribed.
  - destruct (stop_recording_frame env w) as (evs & E & _ & Hc & Ht).
    rewrite E. unfold emits. cbn [out].
    change (out (set_is_recording false w)) with (out w).
    rewrite transcribed_app, chunks_app, Hc, Ht, !app_nil_r. exact H.
Qed.

Lemma run_transcribed (env : Env) (acts : list action) (w : world) :
  transcribed (out w) = map int16_samples (chunks (out w)) ->
  transcribed (out (run env acts w))
  = map int16_samples (chunks (out (run env acts w))).
Proof.
  revert w. induction acts as [|a acts IH]; intros w H; [exact H|].
  rewrite run_cons. apply IH. now apply step_transcribed.
Qed.


Lemma startup_transcribed (env : Env) :
  transcribed (out (snd (startup env world0)))
  = map int16_samples (chunks (out (snd (startup env world0)))).
Proof.
  unfold startup, init, start_recording, bind, print, update, extern, ret,
    set_has_model, set_has_p, set_has_stream, set_is_recording,
    set_audio_buffer, set_whisper, log, world0.
  repeat first
    [ progress simpl
    | match goal with
      | |- context [match binding ?e ?t ?c with _ => _ end] =>
          destruct (binding e t c)
      end ];
    reflexivity.
Qed.

(** The scenario of the specification: the engine fails on chunk 2 of 3;
    the console shows a transcript, the logged error, a transcript, and the
    worker is still running. *)
Example scenario_second_chunk_fails :
  let w0 := snd (startup env_second_fails world0) in
  let w := run env_second_fails three_chunks w0 in
  printed (out w) =
    printed (out w0)
    ++ [utf8 "🕐 [12:34:56] hello";
        utf8 "❌ 오디오 처리 오류: engine error";
        utf8 "🕐 [12:34:56] hello"]
  /\ is_recording (self w) = true.
Proof. vm_compute. split; reflexivity. Qed.

(** ** C10 *)

(** C10.  The callback always returns [(in_data, paContinue)] and raises
    nothing.  With the flag set it appends the frame to the queue; with the
    flag cleared it leaves the world as it is, so every continuation is the
    one that would have followed had the callback not fired: the frame is
    never polled by the worker. *)
Theorem C10_callback_returns_and_drops
    (in_data : bytes) (w : world) :
  fst (audio_callback in_data w) = inr (in_data, paContinue)
  /\ (is_recording (self w) = true ->
      snd (audio_callback in_data w)
      = set_audio_buffer (audio_buffer (self w) ++ [in_data]) w)
  /\ (is_recording (self w) = false ->
      snd (audio_callback in_data w) = w
      /\ forall env acts,
           run env (Capture in_data :: acts) w = run env acts w
           /\ pops (out (run env (Capture in_data :: acts) w))
              = pops (out (run env acts w))).
Proof.
  rewrite audio_callback_eq. cbn [fst snd]. split; [reflexivity|].
  split; intros Hrec; rewrite ?Hrec; [reflexivity|].
  split; [reflexivity|]. intros env acts.
  assert (E : run env (Capture in_data :: acts) w = run env acts w).
  { rewrite run_cons. unfold step. rewrite audio_callback_eq, Hrec. reflexivity. }
  rewrite E. split; reflexivity.
Qed.

(** Witness of C10: a frame arriving after the session was stopped, and one
    arriving while it records. *)
Lemma C10_callback_returns_and_drops_witness :
  (fst (audio_callback silent_frame stopped0) = inr (silent_frame, paContinue)
   /\ snd (audio_callback silent_frame stopped0) = stopped0
   /\ forall env acts,
        run env (Capture silent_frame :: acts) stopped0 = run env acts stopped0
        /\ pops (out (run env (Capture silent_frame :: acts) stopped0))
           = pops (out (run env acts stopped0)))
  /\ snd (audio_callback silent_frame (holding []))
     = set_audio_buffer [silent_frame] (holding []).
Proof.
  destruct (C10_callback_returns_and_drops silent_frame stopped0) as (R & _ & D).
  destruct (C10_callback_returns_and_drops silent_frame (holding [])) as (_ & K & _).
  split.
  - split; [exact R|]. apply D. reflexivity.
  - apply K. reflexivity.
Defined.

(** ** [strip] and the text of a transcript *)

Lemma lstrip_length (s : list N) : (List.length (lstrip s) <= List.length s)%nat.
Proof.
  induction s as [|c r IH]; [reflexivity|]. cbn [lstrip].
  destruct (isspace c); cbn [List.length]; lia.
Qed.

Lemma lstrip_fixed_head (c : N) (r : list N) :
  lstrip (c :: r) = c :: r -> isspace c = false.
Proof.
  cbn [lstrip]. destruct (isspace c); [|reflexivity]. intros H.
  pose proof (lstrip_length r) as L. rewrite H in L. cbn [List.length] in L. lia.
Qed.

Lemma lstrip_idem (s : list N) : lstrip (lstrip s) = lstrip s.
Proof.
  induction s as [|c r IH]; [reflexivity|]. cbn [lstrip].
  destruct (isspace c) eqn:E; [exact IH|]. cbn [lstrip]. now rewrite E.
Qed.

Lemma lstrip_app_fixed (a x : list N) :
  a <> [] -> lstrip a = a -> lstrip (a ++ x) = a ++ x.
Proof.
  destruct a as [|c r]; [congruence|]. intros _ H.
  apply lstrip_fixed_head in H. cbn [app lstrip]. now rewrite H.
Qed.

Lemma lstrip_snoc (x : list N) (c : N) :
  isspace c = false -> exists u, lstrip (x ++ [c]) = u ++ [c].
Proof.
  intros Hc. induction x as [|d x IH]; cbn [app lstrip].
  - rewrite Hc. now exists [].
  - destruct (isspace d); [exact IH|]. now exists (d :: x).
Qed.

Lemma rstrip_fixed_rev (a : list N) : rstrip a = a -> lstrip (rev a) = rev a.
Proof.
  unfold rstrip. intros H. apply (f_equal (@rev N)) in H.
  now rewrite rev_involutive in H.
Qed.

Lemma rstrip_idem (s : list N) : rstrip (rstrip s) = rstrip s.
Proof. unfold rstrip. now rewrite rev_involutive, lstrip_idem. Qed.

Lemma rstrip_app_fixed (x a : list N) :
  a <> [] -> rstrip a = a -> rstrip (x ++ a) = x ++ a.
Proof.
  intros Ha H. unfold rstrip. rewrite rev_app_distr.
  rewrite lstrip_app_fixed.
  - now rewrite <- rev_app_distr, rev_involutive.
  - intros E. apply (f_equal (@rev N)) in E. rewrite rev_involutive in E.
    now apply Ha.
  - now apply rstrip_fixed_rev.
Qed.

Lemma rstrip_snoc_space (x : list N) (c : N) :
  isspace c = true -> rstrip (x ++ [c]) = rstrip x.
Proof.
  intros Hc. unfold rstrip. rewrite rev_app_distr. cbn [rev app lstrip].
  now rewrite Hc.
Qed.

Lemma lstrip_rstrip_fixed (t : list N) :
  lstrip t = t -> lstrip (rstrip t) = rstrip t.
Proof.
  destruct t as [|c r]; [reflexivity|]. intros H.
  apply lstrip_fixed_head in H. unfold rstrip. cbn [rev].
  destruct (lstrip_snoc (rev r) c H) as [u Eu]. rewrite Eu, rev_app_distr.
  cbn [rev app lstrip]. now rewrite H.
Qed.

(** What [strip] returns has no white space at either end. *)
Lemma strip_fixed (s : list N) :
  lstrip (strip s) = strip s /\ rstrip (strip s) = strip s.
Proof.
  unfold strip. split.
  - apply lstrip_rstrip_fixed, lstrip_idem.
  - apply rstrip_idem.
Qed.

Lemma collect_from (segments : list (list N)) (text : list N) :
  fold_left
    (fun text segment =>
       if nonempty (strip segment) then text ++ strip segment ++ [SPACE]
       else text)
    segments text
  = text ++ List.concat (map (fun a => a ++ [SPACE])
                             (filter nonempty (map strip segments))).
Proof.
  revert text. induction segments as [|s r IH]; intros text; cbn [fold_left map filter].
  - cbn. now rewrite app_nil_r.
  - rewrite IH. destruct (nonempty (strip s)); [|reflexivity].
    cbn [map List.concat]. now rewrite <- !app_assoc.
Qed.

Lemma join_space_fixed (l : list (list N)) :
  l <> [] ->
  Forall (fun a => a <> [] /\ lstrip a = a /\ rstrip a = a) l ->
  join_space l <> [] /\ lstrip (join_space l) = join_space l
  /\ rstrip (join_space l) = join_space l
  /\ List.concat (map (fun a => a ++ [SPACE]) l) = join_space l ++ [SPACE].
Proof.
  intros Hne H. revert Hne.
  induction H as [|a r (Ha & La & Ra) Hr IH]; intros Hne; [congruence|].
  destruct r as [|b r].
  - cbn. rewrite app_nil_r. auto.
  - destruct IH as (Jn & Jl & Jr & Jc); [discriminate|].
    change (join_space (a :: b :: r)) with (a ++ SPACE :: join_space (b :: r)).
    repeat split.
    + destruct a; [congruence | discriminate].
    + now apply lstrip_app_fixed.
    + change (a ++ SPACE :: join_space (b :: r))
        with (a ++ [SPACE] ++ join_space (b :: r)).
      rewrite app_assoc. now apply rstrip_app_fixed.
    + change (List.concat (map (fun a0 => a0 ++ [SPACE]) (a :: b :: r)))
        with ((a ++ [SPACE])
              ++ List.concat (map (fun a0 => a0 ++ [SPACE]) (b :: r))).
      rewrite Jc, <- !app_assoc. reflexivity.
Qed.

(** The text [process_audio] returns: the non-empty stripped segments, in
    order, joined by single spaces. *)
Lemma strip_collect (segments : list (list N)) :
  strip (collect segments) = join_space (filter nonempty (map strip segments)).
Proof.
  unfold collect. rewrite collect_from. cbn [app].
  set (l := filter nonempty (map strip segments)).
  assert (F : Forall (fun a => a <> [] /\ lstrip a = a /\ rstrip a = a) l).
  { apply Forall_forall. intros a Ha. apply filter_In in Ha.
    destruct Ha as [Hin Hne]. apply in_map_iff in Hin.
    destruct Hin as (s & <- & _). split.
    - intros E. rewrite E in Hne. discriminate.
    - apply strip_fixed. }
  destruct l as [|a r] eqn:El; [reflexivity|]. rewrite <- El in *.
  destruct (join_space_fixed (l:=l)) as (Jn & Jl & Jr & Jc);
    [rewrite El; discriminate | exact F |].
  rewrite Jc. unfold strip.
  rewrite lstrip_app_fixed by assumption.
  rewrite rstrip_snoc_space by reflexivity. exact Jr.
Qed.

Lemma two_digits_shape (n : N) :
  exists a b, two_digits n = [a; b] /\ is_digit a /\ is_digit b.
Proof.
  unfold two_digits, is_digit. eexists; eexists. split; [reflexivity|].
  pose proof (N.mod_upper_bound (n / 10) 10 ltac:(discriminate)) as Ha.
  pose proof (N.mod_upper_bound n 10 ltac:(discriminate)) as Hb.
  revert Ha Hb.
  generalize ((n / 10) mod 10)%N as a, (n mod 10)%N as b. intros a b Ha Hb.
  lia.
Qed.

Transparent strftime_HMS transcript_line.

(** [time.strftime("%H:%M:%S")] gives [HH:MM:SS]. *)
Lemma strftime_HMS_shape (t : N) :
  exists h1 h2 m1 m2 s1 s2,
    strftime_HMS t = [h1; h2; 0x3A; m1; m2; 0x3A; s1; s2]%N
    /\ is_digit h1 /\ is_digit h2 /\ is_digit m1 /\ is_digit m2
    /\ is_digit s1 /\ is_digit s2.
Proof.
  unfold strftime_HMS.
  destruct (two_digits_shape ((t / 3600) mod 24)) as (h1 & h2 & -> & ? & ?).
  destruct (two_digits_shape ((t / 60) mod 60)) as (m1 & m2 & -> & ? & ?).
  destruct (two_digits_shape (t mod 60)) as (s1 & s2 & -> & ? & ?).
  exists h1, h2, m1, m2, s1, s2. cbn [app]. auto 10.
Qed.

Opaque strftime_HMS.

(** ** C9 *)

Lemma printed_sliced_polled (cs : Z) (w : world) :
  printed (out (sliced cs (polled w))) = printed (out w).
Proof.
  unfold sliced, log. cbn [out set_audio_chunk].
  destruct (polled_fields w) as (_ & _ & _ & Eo). rewrite Eo, !printed_app.
  destruct (audio_buffer (self w)); cbn; now rewrite !app_nil_r.
Qed.

Transparent MSG_CLOCK.

(** C9 (amended).  In a pass of the loop that slices a chunk on which the
    engine returns segments, let [text] be the non-empty stripped segments
    joined in order by single spaces.  If [text] is not empty the pass
    prints exactly one line, the clock emoji and a space followed by
    [[HH:MM:SS] text]; if it is empty the pass prints nothing. *)
Theorem C9_transcript_line_has_clock_prefix
    (env : Env) (w : world) (texts : list pystr) :
  let process_data := slice_to chunk_size (audio_chunk (polled w)) in
  let text := join_space (filter nonempty (map strip texts)) in
  let now := clock env (out (sliced chunk_size (polled w))
                        ++ [Transcribe (int16_samples process_data)]) in
  chunk_size <= len (audio_chunk (polled w)) ->
  engine env (out (sliced chunk_size (polled w))) (int16_samples process_data)
  = Segments texts ->
  printed (out (snd (loop_body env chunk_size w)))
  = printed (out w)
    ++ (if nonempty text
        then [utf8 "🕐 [" ++ strftime_HMS now ++ utf8 "] " ++ text]
        else [])
  /\ exists h1 h2 m1 m2 s1 s2,
       strftime_HMS now = [h1; h2; 0x3A; m1; m2; 0x3A; s1; s2]%N
       /\ is_digit h1 /\ is_digit h2 /\ is_digit m1 /\ is_digit m2
       /\ is_digit s1 /\ is_digit s2.
Proof.
  intros process_data text now Hlen Heng.
  split; [|apply strftime_HMS_shape].
  rewrite loop_body_eq. cbv zeta.
  assert (C : (chunk_size <=? len (audio_chunk (polled w))) = true)
    by now apply Z.leb_le.
  rewrite C. fold process_data.
  rewrite process_audio_chunk
    by (apply len_slice_to; [pose proof chunk_size_pos; lia | exact Hlen]).
  rewrite Heng, strip_collect. fold text.
  destruct (nonempty text); cbn [snd]; unfold emits, log; cbn [out];
    rewrite ?printed_app, printed_sliced_polled; cbn [printed flat_map app];
    rewrite ?app_nil_r; reflexivity.
Qed.

(** Witness of C9: three segments, one of them blank, on a chunk of
    silence. *)
Lemma C9_transcript_line_has_clock_prefix_witness :
  printed (out (snd (loop_body env_segments chunk_size (holding silent_chunk))))
  = printed (out (holding silent_chunk))
    ++ [utf8 "🕐 [12:34:56] hello world"].
Proof.
  destruct (@C9_transcript_line_has_clock_prefix env_segments
              (holding silent_chunk)
              [utf8 "  hello "; utf8 "   "; utf8 "world"]) as [H _].
  - vm_compute. discriminate.
  - reflexivity.
  - rewrite H. vm_compute. reflexivity.
Defined.

(** Counterexample to C9 as stated: the engine hears "hello" at 12:34:56;
    the line printed for the transcript starts with the clock emoji, and no
    line of the console is [[12:34:56] hello]. *)
Lemma C9_counterexample :
  printed (out hello_session)
  = printed (out (snd (startup env_hello world0)))
    ++ [utf8 "🕐 [12:34:56] hello"]
  /\ ~ In (spec_line (utf8 "12:34:56") (utf8 "hello"))
          (printed (out hello_session)).
Proof.
  split.
  - vm_compute. reflexivity.
  - vm_compute. intros H.
    repeat (destruct H as [H|H]; [discriminate H|]). exact H.
Qed.

(** ** C4 *)

Lemma stop_recording_eq (env : Env) (w : world) :
  teardown_ok env ->
  has_stream (self w) = true -> has_p (self w) = true ->
  stop_recording env w = (inr tt, emits stop_events (set_is_recording false w)).
Proof.
  intros Hok Hs Hp. destruct w as [[q rec hm hp hs] ac wh tr].
  cbn [self has_stream has_p] in Hs, Hp. subst hs hp.
  unfold stop_recording, bind, print, update, read, extern, ret, emits,
    set_is_recording, log, stop_events.
  cbn [self has_stream has_p out is_recording audio_buffer has_model
       audio_chunk whisper].
  destruct (Hok (tr ++ [Print MSG_STOPPING])) as (-> & _ & _).
  cbn [self has_stream has_p out is_recording audio_buffer has_model
       audio_chunk whisper].
  destruct (Hok ((tr ++ [Print MSG_STOPPING]) ++ [Ext stream_stop_stream]))
    as (_ & -> & _).
  cbn [self has_stream has_p out is_recording audio_buffer has_model
       audio_chunk whisper].
  destruct (Hok (((tr ++ [Print MSG_STOPPING]) ++ [Ext stream_stop_stream])
                 ++ [Ext stream_close])) as (_ & _ & ->).
  cbn [self has_stream has_p out is_recording audio_buffer has_model
       audio_chunk whisper].
  rewrite <- !app_assoc. reflexivity.
Qed.

(** C4 (amended).  After a session has started (the stream and the PyAudio
    handle are bound), a second [stop_recording] right after the first
    leaves the flag cleared and the object as the first call left it, but it
    is not a no-op: it prints its two lines again and calls
    [stream.stop_stream()], [stream.close()] and [p.terminate()] again, since
    the attributes are still bound.  It returns without raising provided
    these calls of the binding raise nothing. *)
Theorem C4_second_stop_releases_again (env : Env) (w : world) :
  teardown_ok env ->
  has_stream (self w) = true -> has_p (self w) = true ->
  let w1 := snd (stop_recording env w) in
  let w2 := snd (stop_recording env w1) in
  fst (stop_recording env w) = inr tt
  /\ fst (stop_recording env w1) = inr tt
  /\ is_recording (self w1) = false
  /\ self w2 = self w1
  /\ out w1 = out w ++ stop_events
  /\ out w2 = out w1 ++ stop_events
  /\ externs stop_events = [stream_stop_stream; stream_close; p_terminate].
Proof.
  intros Hok Hs Hp w1 w2.
  assert (E1 : stop_recording env w = (inr tt, emits stop_events (set_is_recording false w)))
    by now apply stop_recording_eq.
  assert (Hs1 : has_stream (self w1) = true) by (unfold w1; rewrite E1; exact Hs).
  assert (Hp1 : has_p (self w1) = true) by (unfold w1; rewrite E1; exact Hp).
  assert (E2 : stop_recording env w1 = (inr tt, emits stop_events (set_is_recording false w1)))
    by now apply stop_recording_eq.
  unfold w2. rewrite E2. unfold w1. rewrite E1. cbn [fst snd].
  repeat split.
Qed.

(** Witness of C4: the session of [env_hello], stopped twice. *)
Lemma C4_second_stop_releases_again_witness :
  out stopped_twice = out stopped_once ++ stop_events
  /\ self stopped_twice = self stopped_once.
Proof.
  destruct (@C4_second_stop_releases_again env_hello
              (snd (startup env_hello world0)))
    as (_ & _ & _ & Hself & _ & Hout & _).
  - intros tr. repeat split.
  - reflexivity.
  - reflexivity.
  - split; [exact Hout | exact Hself].
Defined.

(** Counterexample to C4 as stated: the second call stops and closes the
    stream and terminates PyAudio a second time, so it is not a no-op. *)
Lemma C4_counterexample :
  externs (out stopped_twice)
  = externs (out stopped_once) ++ [stream_stop_stream; stream_close; p_terminate]
  /\ stopped_twice <> stopped_once.
Proof.
  split.
  - vm_compute. reflexivity.
  - intros H. apply (f_equal (fun w => List.length (out w))) in H.
    vm_compute in H. discriminate H.
Qed.

(** ** C8 *)



(** With a binding that raises nothing on teardown, [stop_recording] returns
    whatever is bound. *)
Lemma stop_recording_returns (env : Env) (w : world) :
  teardown_ok env -> fst (stop_recording env w) = inr tt.
Proof.
  intros Hok. destruct w as [[q rec hm hp hs] ac wh tr].
  unfold stop_recording, bind, print, update, read, extern, ret,
    set_is_recording, log.
  destruct hs, hp;
    repeat first
      [ progress simpl
      | match goal with
        | |- context [binding env ?t stream_stop_stream] =>
            destruct (Hok t) as (-> & _ & _)
        | |- context [binding env ?t stream_close] =>
            destruct (Hok t) as (_ & -> & _)
        | |- context [binding env ?t p_terminate] =>
            destruct (Hok t) as (_ & _ & ->)
        end ];
    reflexivity.
Qed.

Lemma main_handlers_returns (env : Env) (e : exn) (w : world) :
  teardown_ok env -> fst (main_handlers env e w) = inr tt.
Proof.
  intros Hok. unfold main_handlers, bind, print, update, read, ret.
  destruct e; cbn [fst snd];
    match goal with
    | |- context [whisper ?x] => destruct (whisper x)
    end;
    first [apply stop_recording_returns; exact Hok | reflexivity].
Qed.






(** * Further properties of the code *)

(** ** [stop_recording] before [start_recording] *)

(** X1.  When neither [stream] nor [p] is bound (the object was never
    started), [stop_recording] clears the flag, prints its two lines and
    returns; it makes no call into the audio binding, whatever the binding
    would have answered. *)
Theorem X1_stop_before_start_touches_no_handle (env : Env) (w : world) :
  has_stream (self w) = false -> has_p (self w) = false ->
  stop_recording env w
  = (inr tt,
     emits [Print MSG_STOPPING; Print MSG_STOPPED] (set_is_recording false w)).
Proof.
  intros Hs Hp. destruct w as [[q rec hm hp hs] ac wh tr].
  cbn [self has_stream has_p] in Hs, Hp. subst hs hp.
  unfold stop_recording, bind, print, update, read, ret, emits,
    set_is_recording, log.
  cbn [self has_stream has_p out is_recording audio_buffer has_model
       audio_chunk whisper].
  rewrite <- app_assoc. reflexivity.
Qed.

Lemma X1_stop_before_start_touches_no_handle_witness :
  stop_recording env_no_device constructed
  = (inr tt,
     emits [Print MSG_STOPPING; Print MSG_STOPPED]
           (set_is_recording false constructed)).
Proof.
  apply X1_stop_before_start_touches_no_handle; reflexivity.
Defined.

(** ** [process_audio] at its edges *)

(** X6.  An [audio_data] of odd length cannot be read as 16-bit samples:
    [process_audio] prints one line that starts with the error prefix and
    returns [None]; the engine is not called, however long the data is. *)
Theorem X6_odd_length_is_logged_not_transcribed
    (env : Env) (audio_data : bytes) (w : world) :
  Z.odd (len audio_data) = true ->
  exists reason,
    process_audio env audio_data w
    = (inr None, emits [Print (MSG_AUDIO_ERROR ++ reason)] w).
Proof.
  intros Hodd. rewrite process_audio_eq.
  rewrite <- Z.negb_odd, Hodd. cbn [negb]. now exists MSG_FROMBUFFER.
Qed.

Lemma X6_odd_length_is_logged_not_transcribed_witness :
  exists reason,
    process_audio env_hello odd_data (holding [])
    = (inr None, emits [Print (MSG_AUDIO_ERROR ++ reason)] (holding [])).
Proof.
  apply X6_odd_length_is_logged_not_transcribed. reflexivity.
Defined.

(** X12.  The floor of one second is inclusive: data of even length with at
    least [RATE] samples (exactly one second included) is given to the
    engine exactly once, whole, and [process_audio] returns the joined text
    when the engine answers and [None] when it raises. *)
Theorem X12_one_second_is_transcribed
    (env : Env) (audio_data : bytes) (w : world) :
  Z.even (len audio_data) = true ->
  RATE <= len audio_data / SAMPLE_WIDTH ->
  transcribed (out (snd (process_audio env audio_data w)))
  = transcribed (out w) ++ [int16_samples audio_data]
  /\ fst (process_audio env audio_data w)
     = inr match engine env (out w) (int16_samples audio_data) with
           | Raises _ => None
           | Segments texts =>
               Some (join_space (filter nonempty (map strip texts)))
           end.
Proof.
  intros Heven Hlong. rewrite process_audio_eq, Heven, len_int16_samples.
  assert (E : (len audio_data / 2 <? RATE * 1) = false)
    by (apply Z.ltb_ge; unfold SAMPLE_WIDTH in Hlong; lia).
  rewrite E.
  destruct (engine env (out w) (int16_samples audio_data)); cbn [fst snd];
    unfold emits; cbn [out]; rewrite transcribed_app, ?strip_collect;
    split; reflexivity.
Qed.

Lemma X12_one_second_is_transcribed_witness :
  transcribed (out (snd (process_audio env_hello one_second (holding []))))
  = transcribed (out (holding [])) ++ [int16_samples one_second]
  /\ fst (process_audio env_hello one_second (holding []))
     = inr match engine env_hello (out (holding [])) (int16_samples one_second) with
           | Raises _ => None
           | Segments texts =>
               Some (join_space (filter nonempty (map strip texts)))
           end.
Proof.
  apply X12_one_second_is_transcribed.
  - vm_compute. reflexivity.
  - vm_compute. discriminate.
Defined.

(** X7.  Every sample read from the bytes is a 16-bit signed integer, so
    the waveform, its quotient by 32768, lies in [-1, 1); and there is one
    sample for every two bytes. *)
Theorem X7_samples_are_int16 (audio_data : bytes) :
  Forall (fun s => -32768 <= s <= 32767) (int16_samples audio_data)
  /\ len (int16_samples audio_data) = len audio_data / SAMPLE_WIDTH.
Proof.
  split; [|apply len_int16_samples].
  induction audio_data as [|a|lo hi r IH] using pair_induction.
  - constructor.
  - constructor.
  - cbn [int16_samples]. constructor; [|exact IH].
    unfold int16_of. cbv zeta.
    pose proof (Byte.to_N_bounded lo) as Hlo.
    pose proof (Byte.to_N_bounded hi) as Hhi.
    destruct (Z.of_N (to_N lo) + 256 * Z.of_N (to_N hi) <? 32768) eqn:E;
      [apply Z.ltb_lt in E | apply Z.ltb_ge in E]; lia.
Qed.

(** ** The bytes on their way through the pipeline *)

(** X4.  While a started session is not stopped, no byte is lost,
    duplicated or reordered at any moment: the frames the worker has polled
    followed by those still queued are the frames given to the callback, in
    order, and the captured bytes are the chunks sliced so far, then the
    bytes held in [audio_chunk], then the queued frames. *)
Theorem X4_bytes_are_conserved (env : Env) (acts : list action) :
  fst (startup env world0) = inr tt ->
  no_halt acts = true ->
  let w := run env acts (snd (startup env world0)) in
  pops (out w) ++ audio_buffer (self w) = captured acts
  /\ List.concat (captured acts)
     = List.concat (chunks (out w)) ++ audio_chunk w
       ++ List.concat (audio_buffer (self w)).
Proof.
  intros Hstart Hnh w.
  destruct (startup_frame env world0) as (Eq0 & _ & (evs & Eo0 & Hp0 & _) & Hrec0).
  specialize (Hrec0 Hstart).
  destruct (run_delivery env acts (snd (startup env world0)) Hnh Hrec0) as [_ D].
  fold w in D. rewrite Eo0, Eq0 in D. cbn [out world0 app] in D.
  rewrite Hp0 in D. cbn [app] in D.
  assert (L : lossless chunk_size w)
    by (apply lossless_run, lossless_startup).
  destruct L as [L _]. split; [exact D|].
  rewrite <- D, List.concat_app, <- L, <- app_assoc. reflexivity.
Qed.

Lemma X4_bytes_are_conserved_witness :
  let w := run env_hello two_halves (snd (startup env_hello world0)) in
  pops (out w) ++ audio_buffer (self w) = captured two_halves
  /\ List.concat (captured two_halves)
     = List.concat (chunks (out w)) ++ audio_chunk w
       ++ List.concat (audio_buffer (self w)).
Proof.
  apply X4_bytes_are_conserved; reflexivity.
Defined.

Lemma loop_body_chunks (env : Env) (cs : Z) (w : world) :
  chunks (out (snd (loop_body env cs w)))
  = chunks (out w)
    ++ (if cs <=? len (audio_chunk (polled w))
        then [slice_to cs (audio_chunk (polled w))] else []).
Proof.
  destruct (loop_body_frame env cs w) as (evs & E & _ & Q & _). rewrite E.
  cbn [snd]. destruct (polled_fields w) as (_ & _ & _ & Eo).
  assert (P : chunks (out (polled w)) = chunks (out w)).
  { rewrite Eo, chunks_app.
    destruct (audio_buffer (self w)); cbn; now rewrite app_nil_r. }
  destruct (cs <=? len (audio_chunk (polled w))).
  - unfold emits, sliced, log. cbn [out set_audio_chunk].
    rewrite !chunks_app, Q, P. cbn. now rewrite !app_nil_r.
  - now rewrite P, app_nil_r.
Qed.

Lemma step_counts (env : Env) (a : action) (w : world) :
  len (pops (out (step env a w))) <= len (pops (out w)) + passes [a]
  /\ len (chunks (out (step env a w))) <= len (chunks (out w)) + passes [a].
Proof.
  destruct a as [in_data| |]; unfold step.
  - rewrite audio_callback_eq. cbn [snd].
    change (passes [Capture in_data]) with 0.
    destruct (is_recording (self w));
      [change (out (set_audio_buffer (audio_buffer (self w) ++ [in_data]) w))
         with (out w)|]; lia.
  - change (passes [Iterate]) with 1.
    destruct (is_recording (self w)); [|lia].
    rewrite loop_body_pops, loop_body_chunks.
    destruct (polled_fields w) as (_ & _ & _ & Eo). rewrite Eo, pops_app.
    rewrite !len_app.
    assert (len (pops match audio_buffer (self w) with
                      | [] => []
                      | f :: _ => [Pop f]
                      end) <= 1)
      by (destruct (audio_buffer (self w)); cbn; lia).
    assert (len (if chunk_size <=? len (audio_chunk (polled w))
                 then [slice_to chunk_size (audio_chunk (polled w))]
                 else []) <= 1)
      by (destruct (chunk_size <=? len (audio_chunk (polled w))); cbn; lia).
    lia.
  - change (passes [Halt]) with 0.
    destruct (stop_recording_frame env w) as (evs & E & Hp & Hc & _).
    rewrite E. unfold emits. cbn [out].
    change (out (set_is_recording false w)) with (out w).
    rewrite pops_app, chunks_app, Hp, Hc, !app_nil_r. lia.
Qed.

Lemma passes_cons (a : action) (acts : list action) :
  passes (a :: acts) = passes [a] + passes acts.
Proof.
  unfold passes. cbn [filter]. destruct a; cbn [List.length app];
    unfold len; cbn [List.length]; lia.
Qed.

(** X8.  A pass of the worker loop polls at most one frame and slices at
    most one chunk, however much is waiting: along any schedule the numbers
    of frames polled and of chunks sliced grow by at most the number of
    passes. *)
Theorem X8_one_frame_and_one_chunk_per_pass
    (env : Env) (acts : list action) (w : world) :
  len (pops (out (run env acts w))) <= len (pops (out w)) + passes acts
  /\ len (chunks (out (run env acts w))) <= len (chunks (out w)) + passes acts.
Proof.
  revert w. induction acts as [|a acts IH]; intros w.
  - cbn. lia.
  - rewrite run_cons, passes_cons.
    destruct (step_counts env a w) as [S1 S2].
    destruct (IH (step env a w)) as [I1 I2]. lia.
Qed.

(** ** The accumulator stays below one chunk *)

Lemma loop_body_audio_chunk (env : Env) (cs : Z) (w : world) :
  audio_chunk (snd (loop_body env cs w))
  = if cs <=? len (audio_chunk (polled w))
    then slice_from cs (audio_chunk (polled w))
    else audio_chunk (polled w).
Proof.
  destruct (loop_body_frame env cs w) as (evs & E & _). rewrite E. cbn [snd].
  destruct (cs <=? len (audio_chunk (polled w))); reflexivity.
Qed.

Lemma below_chunk_step (env : Env) (a : action) (w : world) :
  Forall (fun f => len f <= chunk_size) (captured [a]) ->
  below_chunk chunk_size w -> below_chunk chunk_size (step env a w).
Proof.
  intros Ha [Hac Hq]. pose proof chunk_size_pos as Hcs.
  destruct a as [in_data| |]; unfold step, below_chunk.
  - rewrite audio_callback_eq. cbn [snd].
    destruct (is_recording (self w)); [|split; assumption].
    change (audio_chunk (set_audio_buffer (audio_buffer (self w) ++ [in_data]) w))
      with (audio_chunk w).
    change (audio_buffer (self (set_audio_buffer (audio_buffer (self w) ++ [in_data]) w)))
      with (audio_buffer (self w) ++ [in_data]).
    split; [exact Hac|]. apply Forall_app. split; [exact Hq | exact Ha].
  - destruct (is_recording (self w)); [|split; assumption].
    rewrite loop_body_audio_chunk, loop_body_self.
    destruct (polled_fields w) as (Es & Ea & _). rewrite Es, Ea.
    cbn [audio_buffer].
    assert (Hf : len (hd [] (audio_buffer (self w))) <= chunk_size
                 /\ Forall (fun f => len f <= chunk_size) (tl (audio_buffer (self w)))).
    { destruct Hq as [|f q Hf Hq]; cbn [hd tl]; [split; [cbn; lia | constructor]|].
      split; assumption. }
    destruct Hf as [Hf Ht]. split; [|exact Ht].
    pose proof (len_nonneg (audio_chunk w)).
    pose proof (len_nonneg (hd [] (audio_buffer (self w)))).
    destruct (chunk_size <=? len (audio_chunk w ++ hd [] (audio_buffer (self w)))) eqn:C;
      [apply Z.leb_le in C | apply Z.leb_gt in C]; rewrite len_app in C.
    + rewrite len_slice_from by (rewrite ?len_app; lia). rewrite len_app. lia.
    + rewrite len_app. lia.
  - destruct (stop_recording_frame env w) as (evs & E & _). rewrite E.
    split; assumption.
Qed.

(** X9.  When no frame given to the callback is longer than [chunk_size]
    (PyAudio's frames have 2048 bytes), fewer than [chunk_size] bytes are
    held in [audio_chunk] after every step of every schedule: a complete
    chunk never waits in the accumulator for a later pass. *)
Theorem X9_accumulator_stays_below_one_chunk
    (env : Env) (acts : list action) :
  Forall (fun f => len f <= chunk_size) (captured acts) ->
  len (audio_chunk (run env acts (snd (startup env world0)))) < chunk_size.
Proof.
  intros Hf.
  assert (K0 : below_chunk chunk_size (snd (startup env world0))).
  { destruct (startup_frame env world0) as (Eq0 & Ea0 & _).
    unfold below_chunk. rewrite Eq0, Ea0. split; [reflexivity | constructor]. }
  enough (K : below_chunk chunk_size (run env acts (snd (startup env world0))))
    by apply K.
  revert Hf K0. generalize (snd (startup env world0)).
  induction acts as [|a acts IH]; intros w Hf K0; [exact K0|].
  rewrite run_cons. change (a :: acts) with ([a] ++ acts) in Hf.
  rewrite captured_app in Hf. apply Forall_app in Hf. destruct Hf as [Ha Hr].
  apply IH; [exact Hr|]. now apply below_chunk_step.
Qed.

Lemma X9_accumulator_stays_below_one_chunk_witness :
  len (audio_chunk (run env_hello short_session (snd (startup env_hello world0))))
  < chunk_size.
Proof.
  apply X9_accumulator_stays_below_one_chunk.
  unfold short_session. rewrite captured_app, captured_iterate, app_nil_r.
  repeat (constructor; [vm_compute; discriminate|]). constructor.
Defined.

(** ** [main] waits for the interrupt *)

Lemma wait_loop_patient (env : Env) (fuel s : nat) (w : world) :
  (forall n, sigint env = Some n -> (s + fuel <= n)%nat) ->
  wait_loop env fuel s w = (None, emits (repeat (Sleep 100) fuel) w).
Proof.
  revert s w. induction fuel as [|fuel IH]; intros s w H.
  - cbn. now rewrite emits_nil.
  - cbn [wait_loop repeat].
    assert (E : wait_loop env fuel (S s) (log (Sleep 100) w)
                = (None, emits (Sleep 100 :: repeat (Sleep 100) fuel) w)).
    { rewrite IH by (intros n Hn; specialize (H n Hn); lia).
      now rewrite log_emits, emits_emits. }
    destruct (sigint env) as [n|] eqn:Hs; [|exact E].
    specialize (H n eq_refl).
    destruct (Nat.eqb n s) eqn:En; [apply Nat.eqb_eq in En; lia | exact E].
Qed.

(** X10.  After a successful startup [main] does nothing but sleep 0.1 s at
    a time until the interrupt arrives: it never returns by itself, and it
    does not stop the session, whatever the worker does. *)
Theorem X10_main_only_sleeps_until_interrupt (env : Env) (fuel : nat) :
  fst (startup env world0) = inr tt ->
  (forall n, sigint env = Some n -> (fuel <= n)%nat) ->
  main env fuel world0
  = (None, emits (repeat (Sleep 100) fuel) (snd (startup env world0))).
Proof.
  intros Hstart Hsig. unfold main.
  destruct (startup env world0) as [[e|u] w1]; cbn [fst snd] in *;
    [discriminate Hstart|].
  now rewrite wait_loop_patient.
Qed.

Lemma X10_main_only_sleeps_until_interrupt_witness :
  main env_patient 7 world0
  = (None, emits (repeat (Sleep 100) 7) (snd (startup env_patient world0))).
Proof.
  apply X10_main_only_sleeps_until_interrupt.
  - reflexivity.
  - intros n H. discriminate H.
Defined.

(** ** [start_recording] *)

Lemma start_recording_cases (env : Env) (w : world) :
  (fst (start_recording env w) = inr tt
   /\ snd (start_recording env w)
      = emits start_events (set_is_recording true (set_has_stream (set_has_p w))))
  \/ (exists e evs,
         fst (start_recording env w) = inl e
         /\ out (snd (start_recording env w)) = out w ++ evs
         /\ ~ In ThreadStart evs
         /\ audio_buffer (self (snd (start_recording env w)))
            = audio_buffer (self w)
         /\ (is_recording (self w) = false ->
             is_recording (self (snd (start_recording env w))) = true ->
             has_stream (self (snd (start_recording env w))) = true)).
Proof.
  destruct w as [[q rec hm hp hs] ac wh tr].
  unfold start_recording, bind, print, update, extern, ret, emits, start_events,
    set_has_p, set_has_stream, set_is_recording, log.
  cbn [fst snd out self audio_chunk whisper audio_buffer is_recording
       has_stream has_model has_p].
  destruct (binding env tr PyAudio_new) as [m1|].
  { right. exists (Error m1), [Ext PyAudio_new].
    cbn [fst snd out self audio_chunk whisper audio_buffer is_recording
         has_stream has_model has_p].
    split; [reflexivity|]. split; [reflexivity|].
    split; [intros [H|H]; [discriminate H | exact H]|].
    split; [reflexivity|]. intros H1 H2. congruence. }
  cbn [fst snd out self audio_chunk whisper audio_buffer is_recording
       has_stream has_model has_p].
  destruct (binding env (tr ++ [Ext PyAudio_new]) (p_open FORMAT CHANNELS RATE CHUNK))
    as [m2|].
  { right. exists (Error m2), [Ext PyAudio_new; Ext (p_open FORMAT CHANNELS RATE CHUNK)].
    cbn [fst snd out self audio_chunk whisper audio_buffer is_recording
         has_stream has_model has_p].
    rewrite <- ?app_assoc.
    split; [reflexivity|]. split; [reflexivity|].
    split; [intros [H|[H|H]]; [discriminate H | discriminate H | exact H]|].
    split; [reflexivity|]. intros H1 H2. congruence. }
  cbn [fst snd out self audio_chunk whisper audio_buffer is_recording
       has_stream has_model has_p].
  destruct (binding env
              ((tr ++ [Ext PyAudio_new]) ++ [Ext (p_open FORMAT CHANNELS RATE CHUNK)])
              stream_start_stream) as [m3|].
  { right.
    exists (Error m3),
      [Ext PyAudio_new; Ext (p_open FORMAT CHANNELS RATE CHUNK); Ext stream_start_stream].
    cbn [fst snd out self audio_chunk whisper audio_buffer is_recording
         has_stream has_model has_p].
    rewrite <- ?app_assoc.
    split; [reflexivity|]. split; [reflexivity|].
    split; [intros [H|[H|[H|H]]];
            [discriminate H | discriminate H | discriminate H | exact H]|].
    split; reflexivity. }
  left.
  cbn [fst snd out self audio_chunk whisper audio_buffer is_recording
       has_stream has_model has_p].
  split; [reflexivity|]. rewrite <- ?app_assoc. reflexivity.
Qed.

(** X11.  [start_recording] starts the worker thread as its last action and
    only when everything before it succeeded.  When it returns it has
    called [PyAudio()], [open] with 16-bit mono 16 kHz frames of 1024
    samples and [start_stream], set the flag, bound both handles and started
    the thread.  When it raises, no thread was started.  Either way it
    leaves the queue alone, and it never sets the flag before the stream is
    bound. *)
Theorem X11_thread_starts_only_when_start_returns (env : Env) (w : world) :
  (fst (start_recording env w) = inr tt ->
   snd (start_recording env w)
   = emits start_events (set_is_recording true (set_has_stream (set_has_p w))))
  /\ (forall e,
         fst (start_recording env w) = inl e ->
         exists evs,
           out (snd (start_recording env w)) = out w ++ evs
           /\ ~ In ThreadStart evs)
  /\ audio_buffer (self (snd (start_recording env w))) = audio_buffer (self w)
  /\ (is_recording (self w) = false ->
      is_recording (self (snd (start_recording env w))) = true ->
      has_stream (self (snd (start_recording env w))) = true).
Proof.
  destruct (start_recording_cases env w)
    as [[R E] | (e & evs & R & O & N & Q & F)].
  - rewrite E, R. repeat split.
    intros e H. discriminate H.
  - rewrite R. repeat split; try assumption.
    + intros H. discriminate H.
    + intros e' _. exists evs. split; assumption.
Qed.

Lemma X11_thread_starts_only_when_start_returns_witness :
  snd (start_recording env_hello constructed)
  = emits start_events
          (set_is_recording true (set_has_stream (set_has_p constructed)))
  /\ (exists evs,
         out (snd (start_recording env_no_device constructed))
         = out constructed ++ evs /\ ~ In ThreadStart evs).
Proof.
  destruct (X11_thread_starts_only_when_start_returns env_hello constructed)
    as (R & _).
  destruct (X11_thread_starts_only_when_start_returns env_no_device constructed)
    as (_ & F & _).
  split.
  - apply R. vm_compute. reflexivity.
  - apply (F (Error (utf8 "Invalid input device"))). vm_compute. reflexivity.
Defined.

(** ** [main]: what is acquired is released *)

(** X3.  When the model cannot be loaded the constructor raises, so
    [whisper] is never bound: [main] prints the error and returns without
    calling [stop_recording] and without any call into the audio binding. *)
Theorem X3_model_failure_skips_teardown
    (env : Env) (fuel : nat) (msg : pystr) :
  binding env [Print MSG_INIT; Print MSG_LOADING] WhisperModel_tiny = Some msg ->
  main env fuel world0
  = (Some (inr tt),
     mkWorld (mkSelf [] false false false false) [] false
             [Print MSG_INIT; Print MSG_LOADING; Ext WhisperModel_tiny;
              Print (MSG_ERROR ++ msg)]).
Proof.
  intros H.
  unfold main, startup, init, bind, print, update, extern, ret, world0,
    set_audio_buffer, set_is_recording, log.
  cbn [fst snd out self audio_chunk whisper audio_buffer is_recording
       has_stream has_model has_p app].
  rewrite H.
  unfold main_handlers, bind, print, update, read, ret, log.
  cbn [fst snd out self audio_chunk whisper audio_buffer is_recording
       has_stream has_model has_p app str_exn].
  reflexivity.
Qed.

Lemma X3_model_failure_skips_teardown_witness :
  main env_no_model 3 world0
  = (Some (inr tt),
     mkWorld (mkSelf [] false false false false) [] false
             [Print MSG_INIT; Print MSG_LOADING; Ext WhisperModel_tiny;
              Print (MSG_ERROR ++ utf8 "model not found")]).
Proof.
  apply X3_model_failure_skips_teardown. reflexivity.
Defined.

Lemma stop_recording_general (env : Env) (w : world) :
  teardown_ok env ->
  stop_recording env w
  = (inr tt,
     emits ([Print MSG_STOPPING]
            ++ (if has_stream (self w)
                then [Ext stream_stop_stream; Ext stream_close] else [])
            ++ (if has_p (self w) then [Ext p_terminate] else [])
            ++ [Print MSG_STOPPED])
           (set_is_recording false w)).
Proof.
  intros Hok. destruct w as [[q rec hm hp hs] ac wh tr].
  unfold stop_recording, bind, print, update, read, extern, ret, emits,
    set_is_recording, log.
  cbn [fst snd out self audio_chunk whisper audio_buffer is_recording
       has_stream has_model has_p].
  destruct hs, hp;
    cbn [fst snd out self audio_chunk whisper audio_buffer is_recording
         has_stream has_model has_p];
    repeat match goal with
           | |- context [binding env ?t stream_stop_stream] =>
               destruct (Hok t) as (-> & _ & _)
           | |- context [binding env ?t stream_close] =>
               destruct (Hok t) as (_ & -> & _)
           | |- context [binding env ?t p_terminate] =>
               destruct (Hok t) as (_ & _ & ->)
           | _ => progress cbn [fst snd out self audio_chunk whisper audio_buffer
                                is_recording has_stream has_model has_p]
           end;
    rewrite <- ?app_assoc; reflexivity.
Qed.

Lemma main_handlers_general (env : Env) (e : exn) (w : world) :
  teardown_ok env ->
  fst (main_handlers env e w) = inr tt
  /\ externs (out (snd (main_handlers env e w)))
     = externs (out w)
       ++ (if whisper w
           then (if has_stream (self w)
                 then [stream_stop_stream; stream_close] else [])
                ++ (if has_p (self w) then [p_terminate] else [])
           else [])
  /\ is_recording (self (snd (main_handlers env e w)))
     = (if whisper w then false else is_recording (self w)).
Proof.
  intros Hok. split; [now apply main_handlers_returns|].
  unfold main_handlers, bind, print, update, read, ret.
  destruct e; cbn [fst snd];
    match goal with
    | |- context [log (Print ?l) w] =>
        change (whisper (log (Print l) w)) with (whisper w);
        destruct (whisper w);
        [ rewrite stop_recording_general by exact Hok; cbn [snd];
          change (has_stream (self (log (Print l) w))) with (has_stream (self w));
          change (has_p (self (log (Print l) w))) with (has_p (self w));
          unfold emits, set_is_recording, log; cbn [out self is_recording];
          rewrite !externs_app;
          destruct (has_stream (self w)), (has_p (self w));
          cbn [externs flat_map app]; rewrite ?app_nil_r; split; reflexivity
        | cbn [snd]; unfold log; cbn [out self];
          rewrite externs_app; cbn [externs flat_map app]; rewrite app_nil_r;
          split; reflexivity ]
    end.
Qed.

Lemma wait_loop_some (env : Env) (fuel s : nat) (w : world) (e : exn) (w' : world) :
  wait_loop env fuel s w = (Some e, w') ->
  e = KeyboardInterrupt
  /\ self w' = self w /\ whisper w' = whisper w
  /\ externs (out w') = externs (out w).
Proof.
  revert s w. induction fuel as [|fuel IH]; intros s w H; [discriminate H|].
  cbn [wait_loop] in H.
  assert (K : wait_loop env fuel (S s) (log (Sleep 100) w) = (Some e, w') ->
              e = KeyboardInterrupt
              /\ self w' = self w /\ whisper w' = whisper w
              /\ externs (out w') = externs (out w)).
  { intros H'. destruct (IH _ _ H') as (E1 & E2 & E3 & E4).
    repeat split; try assumption.
    rewrite E4. unfold log. cbn [out]. rewrite externs_app. cbn.
    now rewrite app_nil_r. }
  destruct (sigint env) as [n|]; [|exact (K H)].
  destruct (Nat.eqb n s); [|exact (K H)].
  injection H as <- <-. repeat split.
Qed.

Lemma startup_outcomes (env : Env) :
  (exists e, fst (startup env world0) = inl e
             /\ whisper (snd (startup env world0)) = false
             /\ is_recording (self (snd (startup env world0))) = false
             /\ externs (out (snd (startup env world0))) = [WhisperModel_tiny])
  \/ (exists e, fst (startup env world0) = inl e
                /\ whisper (snd (startup env world0)) = true
                /\ has_p (self (snd (startup env world0))) = false
                /\ has_stream (self (snd (startup env world0))) = false
                /\ externs (out (snd (startup env world0)))
                   = [WhisperModel_tiny; PyAudio_new])
  \/ (exists e, fst (startup env world0) = inl e
                /\ whisper (snd (startup env world0)) = true
                /\ has_p (self (snd (startup env world0))) = true
                /\ has_stream (self (snd (startup env world0))) = false
                /\ externs (out (snd (startup env world0)))
                   = [WhisperModel_tiny; PyAudio_new;
                      p_open FORMAT CHANNELS RATE CHUNK])
  \/ (whisper (snd (startup env world0)) = true
      /\ has_p (self (snd (startup env world0))) = true
      /\ has_stream (self (snd (startup env world0))) = true
      /\ externs (out (snd (startup env world0)))
         = [WhisperModel_tiny; PyAudio_new; p_open FORMAT CHANNELS RATE CHUNK;
            stream_start_stream]).
Proof.
  unfold startup, init, start_recording, bind, print, update, extern, ret, world0,
    set_audio_buffer, set_is_recording, set_has_model, set_whisper,
    set_has_p, set_has_stream, log.
  cbn [fst snd out self audio_chunk whisper audio_buffer is_recording
       has_stream has_model has_p app].
  match goal with
  | |- context [match binding ?e ?t ?c with _ => _ end] =>
      destruct (binding e t c) as [m1|]
  end.
  { left. exists (Error m1).
    cbn [fst snd out self audio_chunk whisper audio_buffer is_recording
         has_stream has_model has_p app externs flat_map].
    repeat split. }
  right.
  cbn [fst snd out self audio_chunk whisper audio_buffer is_recording
       has_stream has_model has_p app].
  match goal with
  | |- context [match binding ?e ?t ?c with _ => _ end] =>
      destruct (binding e t c) as [m2|]
  end.
  { left. exists (Error m2).
    cbn [fst snd out self audio_chunk whisper audio_buffer is_recording
         has_stream has_model has_p app externs flat_map].
    repeat split. }
  right.
  cbn [fst snd out self audio_chunk whisper audio_buffer is_recording
       has_stream has_model has_p app].
  match goal with
  | |- context [match binding ?e ?t ?c with _ => _ end] =>
      destruct (binding e t c) as [m3|]
  end.
  { left. exists (Error m3).
    cbn [fst snd out self audio_chunk whisper audio_buffer is_recording
         has_stream has_model has_p app externs flat_map].
    repeat split. }
  right.
  cbn [fst snd out self audio_chunk whisper audio_buffer is_recording
       has_stream has_model has_p app].
  match goal with
  | |- context [match binding ?e ?t ?c with _ => _ end] =>
      destruct (binding e t c) as [m4|]
  end;
    cbn [fst snd out self audio_chunk whisper audio_buffer is_recording
         has_stream has_model has_p app externs flat_map];
    repeat split.
Qed.

(** X2.  Whenever [main] returns, with a binding whose teardown raises
    nothing, it returns normally with the flag cleared, and the calls it
    made into the model loader and the audio binding are one of four
    sequences: the model load alone; the load and a failed [PyAudio()]; the
    load, [PyAudio()], a failed [open] and [terminate]; or the full startup
    followed by [stop_stream], [close] and [terminate].  So a stream is
    stopped and closed exactly when it was opened, PyAudio is terminated
    exactly when it was created, and nothing is released twice. *)
Theorem X2_main_releases_what_it_acquired
    (env : Env) (fuel : nat) (r : exn + unit) (w : world) :
  teardown_ok env ->
  main env fuel world0 = (Some r, w) ->
  r = inr tt
  /\ is_recording (self w) = false
  /\ (externs (out w) = [WhisperModel_tiny]
      \/ externs (out w) = [WhisperModel_tiny; PyAudio_new]
      \/ externs (out w)
         = [WhisperModel_tiny; PyAudio_new; p_open FORMAT CHANNELS RATE CHUNK;
            p_terminate]
      \/ externs (out w)
         = [WhisperModel_tiny; PyAudio_new; p_open FORMAT CHANNELS RATE CHUNK;
            stream_start_stream; stream_stop_stream; stream_close;
            p_terminate]).
Proof.
  intros Hok Hmain. unfold main in Hmain.
  pose proof (startup_outcomes env) as Hcases.
  destruct (startup env world0) as [[e|u] w1]; cbn [fst snd] in *.
  - destruct (main_handlers_general e w1 Hok) as (R & X & F).
    destruct (main_handlers env e w1) as [r' w2]. cbn [fst snd] in *.
    injection Hmain as <- <-. split; [exact R|].
    destruct Hcases as [(e1 & _ & Hw & Hr & Hx)
                       |[(e1 & _ & Hw & Hp & Hs & Hx)
                        |[(e1 & _ & Hw & Hp & Hs & Hx)
                         |(Hw & Hp & Hs & Hx)]]];
      rewrite Hw in *; rewrite ?Hp, ?Hs in *; rewrite Hx in X;
      cbn [app] in X; (split; [congruence|]); auto.
  - destruct (wait_loop env fuel 0 w1) as [[e|] w2] eqn:Hwait;
      [|discriminate Hmain].
    destruct (wait_loop_some _ _ _ _ Hwait) as (-> & Es & Ew & Ex).
    destruct (main_handlers_general KeyboardInterrupt w2 Hok) as (R & X & F).
    destruct (main_handlers env KeyboardInterrupt w2) as [r' w3].
    cbn [fst snd] in *. injection Hmain as <- <-. split; [exact R|].
    rewrite Es, Ew, Ex in *.
    destruct Hcases as [(e1 & He & _)
                       |[(e1 & He & _)
                        |[(e1 & He & _)
                         |(Hw & Hp & Hs & Hx)]]];
      try discriminate He.
    rewrite Hw, Hp, Hs in *. rewrite Hx in X. cbn [app] in X.
    split; [exact F|]. auto.
Qed.

Lemma X2_main_releases_what_it_acquired_witness :
  externs (out (snd (main env_no_device 3 world0)))
  = [WhisperModel_tiny; PyAudio_new; p_open FORMAT CHANNELS RATE CHUNK;
     p_terminate]
  /\ is_recording (self (snd (main env_no_device 3 world0))) = false.
Proof.
  destruct (@X2_main_releases_what_it_acquired env_no_device 3 (inr tt)
              (snd (main env_no_device 3 world0)))
    as (_ & F & _).
  - intros tr. repeat split.
  - vm_compute. reflexivity.
  - split; [vm_compute; reflexivity | exact F].
Defined.

(** ** C5: the pass that fails, and the passes after it *)

Lemma loop_body_transcribed_eq (env : Env) (w : world) :
  transcribed (out (snd (loop_body env chunk_size w)))
  = transcribed (out w)
    ++ (if chunk_size <=? len (audio_chunk (polled w))
        then [int16_samples (slice_to chunk_size (audio_chunk (polled w)))]
        else []).
Proof.
  rewrite loop_body_eq. cbv zeta.
  destruct (polled_fields w) as (_ & _ & _ & Eo).
  assert (P : transcribed (out (polled w)) = transcribed (out w)).
  { rewrite Eo, transcribed_app.
    destruct (audio_buffer (self w)); cbn; now rewrite app_nil_r. }
  destruct (chunk_size <=? len (audio_chunk (polled w))) eqn:C;
    [|cbn [snd]; now rewrite P, app_nil_r].
  apply Z.leb_le in C.
  rewrite process_audio_chunk
    by (apply len_slice_to; [pose proof chunk_size_pos; lia | exact C]).
  set (d := slice_to chunk_size (audio_chunk (polled w))).
  assert (S : transcribed (out (sliced chunk_size (polled w))) = transcribed (out w)).
  { unfold sliced, log. cbn [out set_audio_chunk].
    rewrite transcribed_app, P. cbn. now rewrite app_nil_r. }
  destruct (engine env (out (sliced chunk_size (polled w))) (int16_samples d));
    [| destruct (nonempty (strip (collect texts)))];
    cbn [snd]; unfold emits, log; cbn [out];
    rewrite ?transcribed_app, S; cbn [transcribed flat_map app];
    rewrite ?app_nil_r; reflexivity.
Qed.






(** ** After [stop_recording] *)

(** One pass of the coarse schedule is a test followed by its body. *)
Lemma fine_iterate (env : Env) (w : world) (put : option bytes) :
  sys_world (fine_run env [WorkerTest; WorkerBody] (mkSystem w AtTest put))
  = step env Iterate w.
Proof.
  unfold fine_run, step. cbn [fold_left fine_step sys_pc sys_world sys_put].
  destruct (is_recording (self w)); reflexivity.
Qed.

Lemma loop_body_bounds (env : Env) (w : world) :
  len (pops (out (snd (loop_body env chunk_size w)))) <= len (pops (out w)) + 1
  /\ len (chunks (out (snd (loop_body env chunk_size w))))
     <= len (chunks (out w)) + 1
  /\ len (transcribed (out (snd (loop_body env chunk_size w))))
     <= len (transcribed (out w)) + 1
  /\ len (audio_buffer (self (snd (loop_body env chunk_size w))))
     <= len (audio_buffer (self w))
  /\ is_recording (self (snd (loop_body env chunk_size w)))
     = is_recording (self w).
Proof.
  rewrite loop_body_pops, loop_body_chunks, loop_body_transcribed_eq,
    loop_body_self.
  destruct (polled_fields w) as (Es & _ & _ & Eo). rewrite Es, Eo, pops_app.
  cbn [audio_buffer is_recording]. rewrite !len_app.
  destruct (audio_buffer (self w)) as [|f q];
    destruct (chunk_size <=? len (audio_chunk (polled w)));
    unfold len; cbn [pops flat_map tl List.length app]; repeat split; lia.
Qed.

Lemma fine_step_after_stop (env : Env) (a : fine_action) (s : system) :
  is_recording (self (sys_world s)) = false ->
  is_recording (self (sys_world (fine_step env a s))) = false
  /\ len (pops (out (sys_world (fine_step env a s)))) + in_flight (fine_step env a s)
     <= len (pops (out (sys_world s))) + in_flight s
  /\ len (chunks (out (sys_world (fine_step env a s)))) + in_flight (fine_step env a s)
     <= len (chunks (out (sys_world s))) + in_flight s
  /\ len (transcribed (out (sys_world (fine_step env a s))))
     + in_flight (fine_step env a s)
     <= len (transcribed (out (sys_world s))) + in_flight s
  /\ len (audio_buffer (self (sys_world (fine_step env a s))))
     + to_put (fine_step env a s)
     <= len (audio_buffer (self (sys_world s))) + to_put s
  /\ in_flight (fine_step env a s) <= in_flight s
  /\ (in_flight s = 0 ->
      pops (out (sys_world (fine_step env a s))) = pops (out (sys_world s))
      /\ chunks (out (sys_world (fine_step env a s))) = chunks (out (sys_world s))
      /\ transcribed (out (sys_world (fine_step env a s)))
         = transcribed (out (sys_world s))
      /\ audio_chunk (sys_world (fine_step env a s)) = audio_chunk (sys_world s)).
Proof.
  intros Hrec. destruct s as [w pc put]. cbn [sys_world] in Hrec.
  destruct a as [in_data| | | |]; unfold fine_step, in_flight, to_put;
    cbn [sys_world sys_pc sys_put].
  - destruct put; [|rewrite Hrec]; cbn [sys_world sys_pc sys_put];
      repeat split; try assumption; lia.
  - destruct put as [f|]; cbn [sys_world sys_pc sys_put];
      [|repeat split; try assumption; lia].
    unfold audio_buffer_put, update. cbn [snd].
    change (out (set_audio_buffer (audio_buffer (self w) ++ [f]) w)) with (out w).
    change (audio_chunk (set_audio_buffer (audio_buffer (self w) ++ [f]) w))
      with (audio_chunk w).
    change (audio_buffer (self (set_audio_buffer (audio_buffer (self w) ++ [f]) w)))
      with (audio_buffer (self w) ++ [f]).
    change (is_recording (self (set_audio_buffer (audio_buffer (self w) ++ [f]) w)))
      with (is_recording (self w)).
    rewrite len_app. change (len [f]) with 1.
    repeat split; try assumption; lia.
  - destruct pc; [rewrite Hrec|..]; cbn [sys_world sys_pc sys_put];
      repeat split; try assumption; lia.
  - destruct pc; cbn [sys_world sys_pc sys_put];
      try (repeat split; try assumption; lia).
    destruct (loop_body_bounds env w) as (B1 & B2 & B3 & B4 & B5).
    rewrite B5. repeat split; try assumption; try lia.
    all: intros H; discriminate H.
  - destruct (stop_recording_frame env w) as (evs & E & Hp & Hc & Ht).
    rewrite E. unfold emits. cbn [self out audio_chunk].
    change (out (set_is_recording false w)) with (out w).
    change (audio_chunk (set_is_recording false w)) with (audio_chunk w).
    change (audio_buffer (self (set_is_recording false w)))
      with (audio_buffer (self w)).
    change (is_recording (self (set_is_recording false w))) with false.
    rewrite pops_app, chunks_app, transcribed_app, Hp, Hc, Ht, !app_nil_r.
    repeat split; lia.
Qed.

Lemma fine_run_cons (env : Env) (a : fine_action) (acts : list fine_action)
      (s : system) :
  fine_run env (a :: acts) s = fine_run env acts (fine_step env a s).
Proof. reflexivity. Qed.

Lemma fine_run_after_stop (env : Env) (acts : list fine_action) (s : system) :
  is_recording (self (sys_world s)) = false ->
  is_recording (self (sys_world (fine_run env acts s))) = false
  /\ len (pops (out (sys_world (fine_run env acts s))))
     <= len (pops (out (sys_world s))) + in_flight s
  /\ len (chunks (out (sys_world (fine_run env acts s))))
     <= len (chunks (out (sys_world s))) + in_flight s
  /\ len (transcribed (out (sys_world (fine_run env acts s))))
     <= len (transcribed (out (sys_world s))) + in_flight s
  /\ len (audio_buffer (self (sys_world (fine_run env acts s))))
     <= len (audio_buffer (self (sys_world s))) + to_put s
  /\ (in_flight s = 0 ->
      pops (out (sys_world (fine_run env acts s))) = pops (out (sys_world s))
      /\ chunks (out (sys_world (fine_run env acts s))) = chunks (out (sys_world s))
      /\ transcribed (out (sys_world (fine_run env acts s)))
         = transcribed (out (sys_world s))
      /\ audio_chunk (sys_world (fine_run env acts s)) = audio_chunk (sys_world s)).
Proof.
  revert s. induction acts as [|a acts IH]; intros s Hrec.
  - cbn [fine_run fold_left].
    assert (0 <= in_flight s) by (unfold in_flight; destruct (sys_pc s); lia).
    assert (0 <= to_put s) by (unfold to_put; destruct (sys_put s); lia).
    repeat split; try assumption; lia.
  - rewrite fine_run_cons.
    destruct (fine_step_after_stop env a s Hrec)
      as (R & P & C & T & Q & F & Z0).
    destruct (IH (fine_step env a s) R) as (R' & P' & C' & T' & Q' & Z').
    assert (0 <= in_flight (fine_step env a s))
      by (unfold in_flight; destruct (sys_pc (fine_step env a s)); lia).
    assert (0 <= to_put (fine_step env a s))
      by (unfold to_put; destruct (sys_put (fine_step env a s)); lia).
    split; [exact R'|]. repeat (split; [lia|]).
    intros Hz. destruct (Z0 Hz) as (z1 & z2 & z3 & z4).
    destruct Z' as (y1 & y2 & y3 & y4); [lia|].
    rewrite y1, y2, y3, y4. auto.
Qed.

(** X5.  [stop_recording] is noticed within one pass.  After it, whatever
    callbacks, worker steps and further stops follow, the flag stays
    cleared; at most the one pass that was already in its body still polls
    a frame, slices a chunk and gives it to the engine, and at most the one
    callback that had already read the flag still puts its frame.  When no
    pass was under way, nothing is polled, sliced or transcribed any more and
    the bytes held in [audio_chunk] stay there: they are never flushed. *)
Theorem X5_stop_is_noticed_within_one_pass
    (env : Env) (acts : list fine_action) (s : system) :
  is_recording (self (sys_world (fine_run env (Stop :: acts) s))) = false
  /\ len (pops (out (sys_world (fine_run env (Stop :: acts) s))))
     <= len (pops (out (sys_world s))) + in_flight s
  /\ len (chunks (out (sys_world (fine_run env (Stop :: acts) s))))
     <= len (chunks (out (sys_world s))) + in_flight s
  /\ len (transcribed (out (sys_world (fine_run env (Stop :: acts) s))))
     <= len (transcribed (out (sys_world s))) + in_flight s
  /\ len (audio_buffer (self (sys_world (fine_run env (Stop :: acts) s))))
     <= len (audio_buffer (self (sys_world s))) + to_put s
  /\ match sys_pc s with
     | InBody => True
     | _ =>
         pops (out (sys_world (fine_run env (Stop :: acts) s)))
         = pops (out (sys_world s))
         /\ chunks (out (sys_world (fine_run env (Stop :: acts) s)))
            = chunks (out (sys_world s))
         /\ transcribed (out (sys_world (fine_run env (Stop :: acts) s)))
            = transcribed (out (sys_world s))
         /\ audio_chunk (sys_world (fine_run env (Stop :: acts) s))
            = audio_chunk (sys_world s)
     end.
Proof.
  rewrite fine_run_cons.
  set (s1 := fine_step env Stop s).
  assert (H1 : is_recording (self (sys_world s1)) = false
               /\ pops (out (sys_world s1)) = pops (out (sys_world s))
               /\ chunks (out (sys_world s1)) = chunks (out (sys_world s))
               /\ transcribed (out (sys_world s1)) = transcribed (out (sys_world s))
               /\ audio_buffer (self (sys_world s1)) = audio_buffer (self (sys_world s))
               /\ audio_chunk (sys_world s1) = audio_chunk (sys_world s)
               /\ in_flight s1 = in_flight s /\ to_put s1 = to_put s).
  { unfold s1, fine_step, in_flight, to_put. cbn [sys_world sys_pc sys_put].
    destruct (stop_recording_frame env (sys_world s)) as (evs & E & Hp & Hc & Ht).
    rewrite E. unfold emits. cbn [self out audio_chunk].
    change (out (set_is_recording false (sys_world s))) with (out (sys_world s)).
    rewrite pops_app, chunks_app, transcribed_app, Hp, Hc, Ht, !app_nil_r.
    repeat split. }
  destruct H1 as (R & e1 & e2 & e3 & e4 & e5 & e6 & e7).
  destruct (fine_run_after_stop env acts s1 R) as (R' & P & C & T & Q & Z0).
  rewrite e1, e2, e3, e4, e5, e6, e7 in *.
  split; [exact R'|]. repeat (split; [assumption|]).
  unfold in_flight in Z0. destruct (sys_pc s); [apply Z0; reflexivity | exact I
                                               | apply Z0; reflexivity].
Qed.

(** The pass under way does happen after the stop: in [mid_pass] the worker
    is in the body of the pass that completes a chunk; the session is
    stopped, and then the pass polls its frame, slices the chunk and gives it
    to the engine, and the callback puts its frame. *)
Example stop_during_a_pass :
  let s := fine_run env_hello [Stop; WorkerBody; CallbackPut; WorkerTest; WorkerBody]
             mid_pass in
  is_recording (self (sys_world s)) = false
  /\ len (chunks (out (sys_world s))) = 1
  /\ len (transcribed (out (sys_world s))) = 1
  /\ audio_buffer (self (sys_world s)) = [silent_frame]
  /\ sys_pc s = Exited.
Proof. vm_compute. repeat split. Qed.
